(** * opensense_failover.py: OPNsense HA failover for Fritzbox port forwarding

    A shallow embedding of [src/opensense_failover.py]: the TR-064 client
    ([FritzboxTR064]), the master detection ([check_opnsense_master]) and one
    iteration of the polling loop of [main], followed by the properties of the
    reconciliation that the specification states.

    The network is the environment of the script.  A SOAP round trip is a
    transition of an arbitrary device ([post]); the status query and the ping
    of the detection are read from an arbitrary [probe_env].  Logging and
    [time.sleep] have no effect on the values computed and are left out. *)

From Stdlib Require Import ZArith String Ascii List Bool Lia.
From stdpp Require Import base decidable option list strings pretty gmap.

Local Open Scope string_scope.
Local Open Scope list_scope.
Local Open Scope Z_scope.

(** ** Python string operations used by the script *)

Module PyStr.

(** [str(n)] for an [int]. *)
Definition str (z : Z) : string := pretty z.

(** [c in s] for a one-character string [c]. *)
Fixpoint has_char (c : ascii) (s : string) : bool :=
  match s with
  | EmptyString => false
  | String a s' => if Ascii.eqb a c then true else has_char c s'
  end.

(** [needle in hay]. *)
Fixpoint contains (needle hay : string) : bool :=
  if String.prefix needle hay then true
  else match hay with
       | EmptyString => false
       | String _ hay' => contains needle hay'
       end.

(** [s.startswith(p)]. *)
Definition startswith (p s : string) : bool := String.prefix p s.

(** [s.split("}")[-1]]: what follows the last closing brace. *)
Fixpoint last_segment (s : string) : string :=
  match s with
  | EmptyString => EmptyString
  | String a s' =>
      if has_char "}"%char s' then last_segment s'
      else if Ascii.eqb a "}"%char then s' else s
  end.

(** [s.replace("New", "")]: the occurrences are erased from left to right. *)
Fixpoint replace_New (s : string) : string :=
  match s with
  | String "N" (String "e" (String "w" rest)) => replace_New rest
  | String a s' => String a (replace_New s')
  | EmptyString => EmptyString
  end.

(** [s.lower()] on the ASCII letters. *)
Definition lower_char (a : ascii) : ascii :=
  let n := nat_of_ascii a in
  if (Nat.leb 65 n && Nat.leb n 90)%bool then ascii_of_nat (n + 32) else a.

Fixpoint lower (s : string) : string :=
  match s with
  | EmptyString => EmptyString
  | String a s' => String (lower_char a) (lower s')
  end.

End PyStr.

(** ** Configuration data *)

(** The value of the ["protocol"] field of an entry of [FORWARDING_PORTS]. *)
Inductive protocol := TCP | UDP.

Definition proto_str (p : protocol) : string :=
  match p with TCP => "TCP" | UDP => "UDP" end.

Global Instance protocol_eq_dec : EqDecision protocol.
Proof. solve_decision. Defined.

(** An entry of [FORWARDING_PORTS]. *)
Record rule := Rule {
  external : Z;
  internal : Z;
  proto : protocol;
  description : string
}.

(** A value of [OPNSENSE_NODES]; the key is the LAN address of the node. *)
Record node := Node {
  wan_ip : string;
  hostname : string;
  ports : list Z
}.

Global Instance node_eq_dec : EqDecision node.
Proof. solve_decision. Defined.

(** ** The TR-064 boundary *)

(** The action and arguments handed to [_soap].  The constant arguments
    ([NewRemoteHost], [NewEnabled], [NewLeaseDuration]) are not repeated. *)
Inductive soap_request :=
| GetGenericPortMappingEntry (idx : nat)
| DeletePortMapping (port : Z) (pr : protocol)
| AddPortMapping (port : Z) (pr : protocol) (internal_port : Z)
                 (client : string) (desc : string).

(** What [requests.post] hands back: the status code, and the outcome of
    [ET.fromstring(r.text)] followed by [root.findall(".//{*}*")], which is
    [None] when the text does not parse and otherwise the tag and text of each
    element in document order (an absent text is the empty string). *)
Record response := Response {
  status_code : Z;
  elements : option (list (string * string))
}.

Inductive http_result :=
| NoReply                      (* [requests.post] raised *)
| Reply (r : response).

Definition event : Type := soap_request * http_result.

Definition is_get (e : event) : bool :=
  match e.1 with GetGenericPortMappingEntry _ => true | _ => false end.
Definition is_delete (e : event) : bool :=
  match e.1 with DeletePortMapping _ _ => true | _ => false end.
Definition is_add (e : event) : bool :=
  match e.1 with AddPortMapping _ _ _ _ _ => true | _ => false end.

(** [_soap] returns the response only for status 200. *)
Definition succeeded (h : http_result) : bool :=
  match h with
  | NoReply => false
  | Reply r => status_code r =? 200
  end.

(** A value stored in a mapping dictionary. *)
Inductive pyval := PStr (s : string) | PInt (z : Z).

Global Instance pyval_eq_dec : EqDecision pyval.
Proof. solve_decision. Defined.

(** ** Calls that talk to the device *)

Inductive result (A : Type) : Type :=
| Returned (a : A)      (* the call returns [a] *)
| Raised                (* an exception leaves the call *)
| Unfinished.           (* the loop is still running when the fuel is spent *)
Arguments Returned {A} a.
Arguments Raised {A}.
Arguments Unfinished {A}.

(** A call maps the state of the device to the new state, the requests it
    posted with their answers, oldest first, and its result. *)
Definition M (Dev A : Type) : Type := Dev → Dev * list event * result A.

Definition ret {Dev A} (a : A) : M Dev A := λ d, (d, [], Returned a).

Definition bind {Dev A B} (m : M Dev A) (k : A → M Dev B) : M Dev B :=
  λ d, let '(d1, t1, r) := m d in
       match r with
       | Returned a => let '(d2, t2, r2) := k a d1 in (d2, t1 ++ t2, r2)
       | Raised => (d1, t1, Raised)
       | Unfinished => (d1, t1, Unfinished)
       end.

Notation "x <- m ;; k" := (bind m (λ x, k))
  (at level 100, m at next level, right associativity).

(** [for x in l: body(x)]. *)
Fixpoint for_each {Dev A} (l : list A) (body : A → M Dev unit) : M Dev unit :=
  match l with
  | [] => ret tt
  | x :: l' => _ <- body x ;; for_each l' body
  end.

(** [for x in l: acc = body(x, acc)]. *)
Fixpoint for_fold {Dev A S} (l : list A) (body : A → S → M Dev S) (acc : S)
  : M Dev S :=
  match l with
  | [] => ret acc
  | x :: l' => acc' <- body x acc ;; for_fold l' body acc'
  end.

(** [try: m  except Exception: handler]. *)
Definition try_except {Dev A} (m : M Dev A) (handler : A) : M Dev A :=
  λ d, let '(d1, t1, r) := m d in
       match r with
       | Raised => (d1, t1, Returned handler)
       | _ => (d1, t1, r)
       end.

Definition state_of {Dev A} (x : Dev * list event * result A) : Dev := x.1.1.
Definition trace_of {Dev A} (x : Dev * list event * result A) : list event := x.1.2.
Definition result_of {Dev A} (x : Dev * list event * result A) : result A := x.2.

(** An answer that ends the listing: a status other than 200, or a text that
    does not parse. *)
Definition ends_listing (h : http_result) : bool :=
  match h with
  | NoReply => false
  | Reply r =>
      negb (status_code r =? 200)
      || match elements r with None => true | Some _ => false end
  end.

(** Whether the request of an event was answered with status 200. *)
Definition ev_ok (e : event) : bool := succeeded e.2.

(** The number of [True] in a list of outcomes. *)
Definition count_true (bs : list bool) : Z :=
  Z.of_nat (length (List.filter id bs)).

(** ** The status and reachability boundary *)

(** What the status query of one node yields: [requests.get] raised, or a
    response with its status code and, for the body, the [str(iface)] of each
    value of [r.json()] ([None] when [r.json()] or [data.values()] raises). *)
Inductive status_reply :=
| GetRaised
| GetReply (code : Z) (body : option (list string)).

(** The [try] block of the detection leaves through its [except] clause:
    the request raised, or the body of a 200 response does not parse. *)
Definition query_raises (r : status_reply) : bool :=
  match r with
  | GetRaised => true
  | GetReply code body =>
      (code =? 200) && match body with None => true | Some _ => false end
  end.

(** The network as the detection sees it, by LAN address: the status query
    and the return code of [ping -c 1 -W 1] ([subprocess.run] itself is taken
    to return).  The keys of [OPNSENSE_NODES] are distinct, so that a
    detection asks about each address once. *)
Record probe_env := ProbeEnv {
  status : string → status_reply;
  ping : string → Z
}.

Inductive probe_event :=
| Queried (lan_ip : string)          (* [requests.get] was called *)
| Pinged (lan_ip : string)           (* [ping] was run *)
| Master (lan_ip : string)           (* logged "ist MASTER" *)
| FallbackMaster (lan_ip : string).  (* logged "Fallback MASTER" *)

Global Instance probe_event_eq_dec : EqDecision probe_event.
Proof. solve_decision. Defined.

(** ** The script, over an arbitrary device and configuration *)

Section Script.

Context {Dev : Type}.

(** One SOAP round trip: the device moves to a new state and answers. *)
Variable post : Dev → soap_request → Dev * http_result.

(** The global constants whose values the script takes from its
    configuration block. *)
Variable FORWARDING_PORTS : list rule.
Variable OPNSENSE_NODES : list (string * node).

(** *** class FritzboxTR064 *)

(** [_soap]: [None] for every status other than 200; an exception of
    [requests.post] is not caught here. *)
Definition _soap (req : soap_request) : M Dev (option response) :=
  λ d, let '(d', h) := post d req in
       (d', [(req, h)],
        match h with
        | NoReply => Raised
        | Reply r => Returned (if status_code r =? 200 then Some r else None)
        end).

(** The body of the loop over [root.findall(".//{*}*")]. *)
Definition add_element (mapping : gmap string pyval) (elem : string * string)
  : gmap string pyval :=
  let tag := PyStr.last_segment elem.1 in
  if PyStr.startswith "New" tag && negb (String.eqb elem.2 "")
  then <[PyStr.replace_New tag := PStr elem.2]> mapping
  else mapping.

Definition parse_mapping (elems : list (string * string)) (idx : nat)
  : gmap string pyval :=
  <["Index" := PInt (Z.of_nat idx)]> (fold_left add_element elems ∅).

(** The [while True] loop of [get_port_mappings], entered with the current
    [idx] and [mappings]. *)
Fixpoint get_port_mappings_from (fuel idx : nat)
    (mappings : list (gmap string pyval)) : M Dev (list (gmap string pyval)) :=
  match fuel with
  | O => λ d, (d, [], Unfinished)
  | S fuel' =>
      r <- _soap (GetGenericPortMappingEntry idx) ;;
      match r with
      | None => ret mappings
      | Some r =>
          match elements r with
          | None => ret mappings
          | Some elems =>
              get_port_mappings_from fuel' (S idx)
                (mappings ++ [parse_mapping elems idx])
          end
      end
  end.

Definition get_port_mappings (fuel : nat) : M Dev (list (gmap string pyval)) :=
  get_port_mappings_from fuel 0%nat [].

(** [if r:] holds for every response that [_soap] returns. *)
Definition delete_mapping (port : Z) (pr : protocol) : M Dev bool :=
  r <- _soap (DeletePortMapping port pr) ;;
  ret (match r with Some _ => true | None => false end).

Definition add_mapping (port : Z) (wan : string) (internal_port : Z)
    (pr : protocol) (desc : string) : M Dev bool :=
  r <- _soap (AddPortMapping port pr internal_port wan desc) ;;
  ret (match r with Some _ => true | None => false end).

(** [str(cfg["external"]) == m.get("ExternalPort") and
    cfg["protocol"] == m.get("Protocol")]. *)
Definition matches (cfg : rule) (m : gmap string pyval) : bool :=
  bool_decide (m !! "ExternalPort" = Some (PStr (PyStr.str (external cfg))))
  && bool_decide (m !! "Protocol" = Some (PStr (proto_str (proto cfg)))).

Definition delete_phase (current : list (gmap string pyval)) : M Dev unit :=
  for_each FORWARDING_PORTS (λ cfg,
    for_each current (λ m,
      if matches cfg m
      then _ <- delete_mapping (external cfg) (proto cfg) ;; ret tt
      else ret tt)).

Definition add_phase (master : node) : M Dev Z :=
  for_fold FORWARDING_PORTS (λ cfg ok,
    if bool_decide (external cfg ∈ ports master)
    then
      b <- add_mapping (external cfg) (wan_ip master) (internal cfg) (proto cfg)
             (description cfg +:+ " (" +:+ hostname master +:+ ")") ;;
      ret (if b then ok + 1 else ok)
    else ret ok) 0.

Definition update_for_master (fuel : nat) (master : node) : M Dev bool :=
  current <- get_port_mappings fuel ;;
  _ <- delete_phase current ;;
  ok <- add_phase master ;;
  ret (0 <? ok).

(** *** The answers of the device to a listing

    Asked for the indices [idx], [idx + 1], ... in turn from the state [d],
    the device answers the first [length ess] of them with status 200 and
    the element lists [ess], and the next one with [h_end], which leaves it
    in the state [d_end]. *)
Fixpoint answers_listing (d : Dev) (idx : nat)
    (ess : list (list (string * string))) (d_end : Dev) (h_end : http_result)
  : Prop :=
  match ess with
  | [] => post d (GetGenericPortMappingEntry idx) = (d_end, h_end)
  | es :: ess' =>
      ∃ d1, post d (GetGenericPortMappingEntry idx)
            = (d1, Reply (Response 200 (Some es)))
            ∧ answers_listing d1 (S idx) ess' d_end h_end
  end.

(** The round trips of such a listing, and the mappings read from it. *)
Definition listing_events (idx : nat) (ess : list (list (string * string)))
    (h_end : http_result) : list event :=
  imap (λ i es, (GetGenericPortMappingEntry (idx + i),
                 Reply (Response 200 (Some es)))) ess
  ++ [(GetGenericPortMappingEntry (idx + length ess), h_end)].

Definition listed_mappings (idx : nat) (ess : list (list (string * string)))
  : list (gmap string pyval) :=
  imap (λ i es, parse_mapping es (idx + i)) ess.

(** *** The requests of a reconciliation, listed

    The requests that the two loops of [update_for_master] post, in the
    order of the loops, and the plain sequence of round trips that posts a
    list of requests and collects whether each one succeeded. *)

Definition delete_requests (current : list (gmap string pyval))
  : list soap_request :=
  flat_map (λ cfg,
    flat_map (λ m,
      if matches cfg m
      then [DeletePortMapping (external cfg) (proto cfg)] else [])
      current)
    FORWARDING_PORTS.

Definition add_request (master : node) (cfg : rule) : soap_request :=
  AddPortMapping (external cfg) (proto cfg) (internal cfg) (wan_ip master)
    (description cfg +:+ " (" +:+ hostname master +:+ ")").

Definition add_requests (master : node) : list soap_request :=
  flat_map (λ cfg,
    if bool_decide (external cfg ∈ ports master)
    then [add_request master cfg] else [])
    FORWARDING_PORTS.

Fixpoint issue (reqs : list soap_request) : M Dev (list bool) :=
  match reqs with
  | [] => ret []
  | q :: qs =>
      r <- _soap q ;;
      bs <- issue qs ;;
      ret (match r with Some _ => true | None => false end :: bs)
  end.

(** *** check_opnsense_master *)

(** [check = str(iface).lower()]; ["carp" in check and "master" in check]. *)
Definition is_carp_master (iface : string) : bool :=
  let check := PyStr.lower iface in
  PyStr.contains "carp" check && PyStr.contains "master" check.

(** The loop over [OPNSENSE_NODES.items()], with what it asks of the
    network and what it logs, oldest first. *)
Fixpoint check_nodes (env : probe_env) (nodes : list (string * node))
  : option node * list probe_event :=
  match nodes with
  | [] => (None, [])
  | (lan_ip, cfg) :: rest =>
      let next := check_nodes env rest in
      let fallback :=
        if ping env lan_ip =? 0
        then (Some cfg, [Queried lan_ip; Pinged lan_ip; FallbackMaster lan_ip])
        else (next.1, Queried lan_ip :: Pinged lan_ip :: next.2) in
      match status env lan_ip with
      | GetRaised => fallback
      | GetReply code body =>
          if code =? 200 then
            match body with
            | None => fallback
            | Some ifaces =>
                if existsb is_carp_master ifaces
                then (Some cfg, [Queried lan_ip; Master lan_ip])
                else (next.1, Queried lan_ip :: next.2)
            end
          else (next.1, Queried lan_ip :: next.2)
      end
  end.

Definition check_opnsense_master (env : probe_env)
  : option node * list probe_event :=
  check_nodes env OPNSENSE_NODES.

(** *** main *)

(** One pass through the body of the [while True] loop of [main], from the
    recorded master [current] to the one recorded afterwards.  An exception
    of the reconciliation is caught by the [except Exception] clause, which
    leaves [current] as it was.  The connection test that [main] runs before
    the loop only lists the mappings, and [KeyboardInterrupt] ends the loop
    between two passes; neither is part of a pass. *)
Definition tick (env : probe_env) (fuel : nat) (current : option node)
  : M Dev (option node) :=
  match (check_opnsense_master env).1 with
  | Some master =>
      if bool_decide (Some master ≠ current)
      then try_except
             (b <- update_for_master fuel master ;;
              ret (if b then Some master else current))
             current
      else ret current
  | None => ret current
  end.

(** Finitely many passes of the loop, one per element of [inputs]. *)
Fixpoint main_loop (inputs : list (probe_env * nat)) (current : option node)
  : M Dev (option node) :=
  match inputs with
  | [] => ret current
  | (env, fuel) :: rest =>
      current' <- tick env fuel current ;;
      main_loop rest current'
  end.

End Script.

(** The status query answers 200 and one of the interfaces reports the
    master role. *)
Definition reports_master (r : status_reply) : bool :=
  match r with
  | GetReply code (Some ifaces) => (code =? 200) && existsb is_carp_master ifaces
  | _ => false
  end.

(** ** A router to run the script against *)

(** The NAT table of the router, as the environment of the script: a list of
    port mappings addressed by index, at most one per (external port,
    protocol) once the script has written it, and a script of faults that
    makes chosen mutating requests fail. *)
Module Fritz.

Record entry := Entry {
  e_port : Z;
  e_proto : protocol;
  e_internal : Z;
  e_client : string;
  e_desc : string
}.

Global Instance entry_eq_dec : EqDecision entry.
Proof. solve_decision. Defined.

(** The state: the table, and for each coming add or delete request
    whether the router refuses it ([true]); past the end of the list no
    request is refused. *)
Record state := State {
  table : list entry;
  faults : list bool
}.

Definition has_key (port : Z) (pr : protocol) (e : entry) : bool :=
  (e_port e =? port) && bool_decide (e_proto e = pr).

Definition without (port : Z) (pr : protocol) (t : list entry) : list entry :=
  List.filter (λ e, negb (has_key port pr e)) t.

(** The elements of a [GetGenericPortMappingEntryResponse] envelope. *)
Definition render (e : entry) : list (string * string) :=
  [ ("{http://schemas.xmlsoap.org/soap/envelope/}Body", "");
    ("{urn:dslforum-org:service:WANIPConnection:1}GetGenericPortMappingEntryResponse", "");
    ("NewRemoteHost", "");
    ("NewExternalPort", PyStr.str (e_port e));
    ("NewProtocol", proto_str (e_proto e));
    ("NewInternalPort", PyStr.str (e_internal e));
    ("NewInternalClient", e_client e);
    ("NewEnabled", "1");
    ("NewPortMappingDescription", e_desc e);
    ("NewLeaseDuration", "0") ].

Definition ok (elems : list (string * string)) : http_result :=
  Reply (Response 200 (Some elems)).

(** A SOAP fault: status 500 with the UPnP error code. *)
Definition fault (code : string) : http_result :=
  Reply (Response 500 (Some [("errorCode", code)])).

(** What a request does to the table when the router carries it out. *)
Definition apply (req : soap_request) (t : list entry) : list entry :=
  match req with
  | GetGenericPortMappingEntry _ => t
  | DeletePortMapping port pr => without port pr t
  | AddPortMapping port pr internal_port client desc =>
      without port pr t ++ [Entry port pr internal_port client desc]
  end.

Definition post (d : state) (req : soap_request) : state * http_result :=
  match req with
  | GetGenericPortMappingEntry idx =>
      match table d !! idx with
      | Some e => (d, ok (render e))
      | None => (d, fault "713")
      end
  | DeletePortMapping port pr =>
      match faults d with
      | true :: fs => (State (table d) fs, fault "501")
      | _ =>
          if existsb (has_key port pr) (table d)
          then (State (apply req (table d)) (tail (faults d)), ok [])
          else (State (table d) (tail (faults d)), fault "714")
      end
  | AddPortMapping _ _ _ _ _ =>
      match faults d with
      | true :: fs => (State (table d) fs, fault "501")
      | _ => (State (apply req (table d)) (tail (faults d)), ok [])
      end
  end.

(** The table after the round trips of a trace: the requests that were
    answered with status 200 have been carried out. *)
Definition replay (tr : list event) (t : list entry) : list entry :=
  fold_left (λ t e, if ev_ok e then apply e.1 t else t) tr t.

(** The table after a list of requests that were all carried out. *)
Definition carry_out (reqs : list soap_request) (t : list entry) : list entry :=
  fold_left (λ t q, apply q t) reqs t.

(** An entry is under the key that a request names. *)
Definition names_key (q : soap_request) (e : entry) : bool :=
  match q with
  | GetGenericPortMappingEntry _ => false
  | DeletePortMapping port pr => has_key port pr e
  | AddPortMapping port pr _ _ _ => has_key port pr e
  end.

(** An entry is under a key that one of the requests names. *)
Definition named_by (reqs : list soap_request) (e : entry) : bool :=
  existsb (λ q, names_key q e) reqs.

(** The table that a run leaves in which every remove and add succeeded:
    the entries that no remove and no add names, followed by the mappings
    added. *)
Definition settled (rules : list rule) (master : node) (t : list entry)
  : list entry :=
  List.filter (λ e, negb (named_by (add_requests rules master) e))
    (List.filter
       (λ e, negb (named_by
                     (delete_requests rules (listed_mappings 0 (map render t)))
                     e)) t)
  ++ carry_out (add_requests rules master) [].

(** The mappings of the table under a key. *)
Definition lookup_key (port : Z) (pr : protocol) (t : list entry) : list entry :=
  List.filter (has_key port pr) t.

End Fritz.

(** The same router behind a listing that can fail too: a second script
    says, for each coming listing request, whether the router refuses it
    ([true]); past the end of the list it answers from its table. *)
Module Busy.

Record state := State {
  router : Fritz.state;
  refusals : list bool
}.

Definition table (d : state) : list Fritz.entry := Fritz.table (router d).

Definition post (d : state) (req : soap_request) : state * http_result :=
  match req with
  | GetGenericPortMappingEntry _ =>
      match refusals d with
      | true :: rs => (State (router d) rs, Fritz.fault "501")
      | _ => (State (router d) (tail (refusals d)),
              (Fritz.post (router d) req).2)
      end
  | _ => (State (Fritz.post (router d) req).1 (refusals d),
          (Fritz.post (router d) req).2)
  end.

End Busy.

(** The scenario of the specification: 443/TCP belongs to node A and
    8443/TCP to node B. *)
Module Scenario.

Definition rules : list rule :=
  [ Rule 443 443 TCP "HTTPS-Server"; Rule 8443 8443 TCP "HTTPS-Alt" ].

Definition nodeA : node := Node "192.168.178.3" "PC-192-178-3" [443].
Definition nodeB : node := Node "192.168.178.4" "PC-192-178-4" [8443].

Definition nodes : list (string * node) :=
  [ ("10.1.1.3", nodeA); ("10.1.1.4", nodeB) ].

Definition empty_router : Fritz.state := Fritz.State [] [].

(** A node that has no ports, as in the configuration block of the
    script. *)
Definition spare : node := Node "192.168.178.5" "PC-192-178-5" [].

(** The four rules of the script, all assigned to one node, on a router
    that still forwards them to the other node and refuses the second and
    the fourth add. *)
Definition four_rules : list rule :=
  [ Rule 443 443 TCP "HTTPS-Server"; Rule 8443 8443 TCP "HTTPS-Alt";
    Rule 80 80 TCP "HTTP"; Rule 51820 51820 UDP "Wireguard VPN" ].

Definition nodeC : node :=
  Node "192.168.178.4" "PC-192-178-4" [443; 8443; 80; 51820].

Definition stale_router : Fritz.state :=
  Fritz.State
    [ Fritz.Entry 443 TCP 443 "192.168.178.3" "HTTPS-Server (PC-192-178-3)";
      Fritz.Entry 8443 TCP 8443 "192.168.178.3" "HTTPS-Alt (PC-192-178-3)";
      Fritz.Entry 80 TCP 80 "192.168.178.3" "HTTP (PC-192-178-3)";
      Fritz.Entry 51820 UDP 51820 "192.168.178.3" "Wireguard VPN (PC-192-178-3)" ]
    [ false; false; false; false; false; true; false; true ].

(** A router that forwards 443/TCP to node A and 22/TCP to a host that the
    script does not manage. *)
Definition routerA : list Fritz.entry :=
  [ Fritz.Entry 22 TCP 22 "192.168.178.9" "ssh";
    Fritz.Entry 443 TCP 443 "192.168.178.3" "HTTPS-Server (PC-192-178-3)" ].

(** What the interfaces of a node look like in the status response. *)
Definition carp_master : list string :=
  [ "{'device': 'vtnet0', 'carp': [{'status': 'MASTER', 'vhid': '1'}]}" ].
Definition carp_backup : list string :=
  [ "{'device': 'vtnet0', 'carp': [{'status': 'BACKUP', 'vhid': '1'}]}" ].

(** Node A does not answer its status query but answers the ping; node B
    reports the master role. *)
Definition envA_pings : probe_env :=
  ProbeEnv (λ ip, if String.eqb ip "10.1.1.3" then GetRaised
                  else GetReply 200 (Some carp_master))
           (λ _, 0).

(** Node A is down altogether; node B reports the master role. *)
Definition envA_down : probe_env :=
  ProbeEnv (λ ip, if String.eqb ip "10.1.1.3" then GetRaised
                  else GetReply 200 (Some carp_master))
           (λ ip, if String.eqb ip "10.1.1.3" then 1 else 0).

(** Node A refuses the credentials; node B reports the master role. *)
Definition envA_unauthorized : probe_env :=
  ProbeEnv (λ ip, if String.eqb ip "10.1.1.3" then GetReply 401 None
                  else GetReply 200 (Some carp_master))
           (λ _, 0).

(** A host that none of the rules forwards to. *)
Definition outsider : node := Node "192.168.178.9" "PC-192-178-9" [22].

(** Only node B answers, and reports the master role. *)
Definition envB_master : probe_env :=
  ProbeEnv (λ ip, if String.eqb ip "10.1.1.3" then GetReply 200 (Some carp_backup)
                  else GetReply 200 (Some carp_master))
           (λ _, 1).

(** The router forwards 443/TCP to node A and refuses the first listing
    request. *)
Definition unlisted_router : Busy.state :=
  Busy.State
    (Fritz.State
       [Fritz.Entry 443 TCP 443 "192.168.178.3" "HTTPS-Server (PC-192-178-3)"]
       [])
    [true].



End Scenario.

(** ** Notions for the further properties *)

(** A node that the detection takes for the master: its status query reports
    the master role, or the query raises and the node answers the ping. *)
Definition qualifies (env : probe_env) (lan_ip : string) : bool :=
  reports_master (status env lan_ip)
  || (query_raises (status env lan_ip) && (ping env lan_ip =? 0)).

(** The addresses that a detection asked for their status, and those that it
    pinged, in the order of the log. *)
Definition queried (log : list probe_event) : list string :=
  omap (λ ev, match ev with Queried ip => Some ip | _ => None end) log.

Definition pinged (log : list probe_event) : list string :=
  omap (λ ev, match ev with Pinged ip => Some ip | _ => None end) log.

(** A table entry under the key of one of the configured rules. *)
Definition managed (rules : list rule) (e : Fritz.entry) : bool :=
  existsb (λ cfg, Fritz.has_key (external cfg) (proto cfg) e) rules.

(** A rule whose external port belongs to the node. *)
Definition assigned (master : node) (cfg : rule) : bool :=
  bool_decide (external cfg ∈ ports master).

(** The table entry that the add of a rule for a node creates. *)
Definition entry_for (master : node) (cfg : rule) : Fritz.entry :=
  Fritz.Entry (external cfg) (proto cfg) (internal cfg) (wan_ip master)
    (description cfg +:+ " (" +:+ hostname master +:+ ")").

(** What a request of a reconciliation can be: the remove of a configured
    rule, or the add of a configured rule whose port belongs to the node. *)
Definition of_the_rules (rules : list rule) (master : node) (q : soap_request)
  : Prop :=
  (∃ cfg, In cfg rules ∧ q = DeletePortMapping (external cfg) (proto cfg))
  ∨ (∃ cfg, In cfg rules ∧ external cfg ∈ ports master
            ∧ q = add_request master cfg).



(** The key of a rule. *)
Definition rule_key (cfg : rule) : Z * protocol := (external cfg, proto cfg).

(** * Properties *)

(** ** The definitions on sample inputs *)

Example str_443 : PyStr.str 443 = "443".
Proof. reflexivity. Qed.

Example last_segment_ns :
  PyStr.last_segment "{urn:dslforum-org:service:WANIPConnection:1}NewProtocol"
  = "NewProtocol".
Proof. reflexivity. Qed.

Example replace_New_tag : PyStr.replace_New "NewExternalPort" = "ExternalPort".
Proof. reflexivity. Qed.

Example lower_contains :
  PyStr.contains "carp" (PyStr.lower "{'status': 'CARP MASTER'}") = true.
Proof. reflexivity. Qed.

Example scenario_switch :
  let a := update_for_master Fritz.post Scenario.rules 5 Scenario.nodeA
             Scenario.empty_router in
  let b := update_for_master Fritz.post Scenario.rules 5 Scenario.nodeB
             (state_of a) in
  result_of a = Returned true
  ∧ Fritz.table (state_of a)
    = [Fritz.Entry 443 TCP 443 "192.168.178.3" "HTTPS-Server (PC-192-178-3)"]
  ∧ result_of b = Returned true
  ∧ Fritz.table (state_of b)
    = [Fritz.Entry 8443 TCP 8443 "192.168.178.4" "HTTPS-Alt (PC-192-178-4)"]
  ∧ map fst (trace_of b)
    = [ GetGenericPortMappingEntry 0; GetGenericPortMappingEntry 1;
        DeletePortMapping 443 TCP;
        AddPortMapping 8443 TCP 8443 "192.168.178.4" "HTTPS-Alt (PC-192-178-4)" ].
Proof. vm_compute. repeat split. Qed.

(** ** Decimal rendering *)

Lemma pretty_N_go_length (x : N) (s : string) :
  (String.length s ≤ String.length (pretty_N_go x s))%nat.
Proof.
  revert s. induction (N.lt_wf_0 x) as [x _ IH]. intros s.
  destruct (decide (x = 0%N)) as [->|Hx].
  - by rewrite pretty_N_go_0.
  - rewrite pretty_N_go_step by lia.
    etrans; [|apply IH; apply N.div_lt; lia]. simpl. lia.
Qed.

Lemma pretty_N_nonempty (x : N) : pretty x ≠ "".
Proof.
  unfold pretty, pretty_N. case_decide as Hx; [done|].
  rewrite pretty_N_go_step by lia. intros He.
  pose proof (pretty_N_go_length (x `div` 10)
                (String (pretty_N_char (x `mod` 10)) "")) as Hl.
  rewrite He in Hl. simpl in Hl. lia.
Qed.

Lemma str_nonempty (z : Z) : PyStr.str z ≠ "".
Proof.
  unfold PyStr.str, pretty, pretty_Z. destruct z as [|p|p]; [done| |done].
  apply (pretty_N_nonempty (N.pos p)).
Qed.

Lemma str_inj (a b : Z) : PyStr.str a = PyStr.str b → a = b.
Proof. apply (inj pretty). Qed.

Lemma proto_str_inj (a b : protocol) : proto_str a = proto_str b → a = b.
Proof. by destruct a, b. Qed.

(** ** Sequencing of calls *)

Section Calls.

Context {Dev : Type}.
Implicit Types d : Dev.

Lemma bind_ret_l {A B} (a : A) (k : A → M Dev B) d :
  (x <- ret a ;; k x) d = k a d.
Proof. unfold bind, ret. by destruct (k a d) as [[??]?]. Qed.

Lemma bind_ret_r {A} (m : M Dev A) d : (x <- m ;; ret x) d = m d.
Proof.
  unfold bind, ret. destruct (m d) as [[? t] [a| |]]; [|done..].
  by rewrite app_nil_r.
Qed.

Lemma bind_assoc {A B C} (m : M Dev A) (f : A → M Dev B) (g : B → M Dev C) d :
  (y <- (x <- m ;; f x) ;; g y) d = (x <- m ;; y <- f x ;; g y) d.
Proof.
  unfold bind. destruct (m d) as [[d1 t1] [a| |]]; [|done..].
  destruct (f a d1) as [[d2 t2] [b| |]]; [|done..].
  destruct (g b d2) as [[d3 t3] r]. by rewrite app_assoc.
Qed.

Lemma bind_ext {A B} (m : M Dev A) (f g : A → M Dev B) d :
  (∀ a d', f a d' = g a d') → (x <- m ;; f x) d = (x <- m ;; g x) d.
Proof.
  intros H. unfold bind. destruct (m d) as [[d1 t1] [a| |]]; [|done..].
  by rewrite H.
Qed.

Lemma bind_ext_l {A B} (m m' : M Dev A) (f : A → M Dev B) d :
  m d = m' d → (x <- m ;; f x) d = (x <- m' ;; f x) d.
Proof. intros H. unfold bind. by rewrite H. Qed.

(** The three ways in which a sequence of two calls ends. *)
Lemma bind_cases {A B} (m : M Dev A) (k : A → M Dev B) d :
  (∃ a, result_of (m d) = Returned a
        ∧ state_of ((x <- m ;; k x) d) = state_of (k a (state_of (m d)))
        ∧ trace_of ((x <- m ;; k x) d)
          = trace_of (m d) ++ trace_of (k a (state_of (m d)))
        ∧ result_of ((x <- m ;; k x) d) = result_of (k a (state_of (m d))))
  ∨ (result_of (m d) = Raised
     ∧ state_of ((x <- m ;; k x) d) = state_of (m d)
     ∧ trace_of ((x <- m ;; k x) d) = trace_of (m d)
     ∧ result_of ((x <- m ;; k x) d) = Raised)
  ∨ (result_of (m d) = Unfinished
     ∧ state_of ((x <- m ;; k x) d) = state_of (m d)
     ∧ trace_of ((x <- m ;; k x) d) = trace_of (m d)
     ∧ result_of ((x <- m ;; k x) d) = Unfinished).
Proof.
  unfold bind, state_of, trace_of, result_of.
  destruct (m d) as [[d1 t1] [a| |]]; simpl.
  - left. exists a. by destruct (k a d1) as [[d2 t2] r2].
  - right. left. done.
  - right. right. done.
Qed.

End Calls.

(** ** The loops of the reconciliation post the listed requests *)

Section Requests.

Context {Dev : Type}.
Variable post : Dev → soap_request → Dev * http_result.
Implicit Types d : Dev.

Lemma bind_soap {B} (q : soap_request) (k : option response → M Dev B) d :
  (r <- _soap post q ;; k r) d
  = match (post d q).2 with
    | NoReply => ((post d q).1, [(q, NoReply)], Raised)
    | Reply r =>
        let '(d2, t2, r2) :=
          k (if status_code r =? 200 then Some r else None) (post d q).1 in
        (d2, (q, Reply r) :: t2, r2)
    end.
Proof. unfold bind, _soap. by destruct (post d q) as [d1 [|r]]. Qed.

Lemma issue_app (a b : list soap_request) d :
  issue post (a ++ b) d
  = (xs <- issue post a ;; ys <- issue post b ;; ret (xs ++ ys)) d.
Proof.
  revert d. induction a as [|q a IH]; intros d; simpl.
  - rewrite bind_ret_l. simpl. by rewrite bind_ret_r.
  - rewrite bind_assoc. apply bind_ext. intros r d1.
    rewrite bind_assoc.
    transitivity ((bs <- (xs <- issue post a ;; ys <- issue post b ;; ret (xs ++ ys)) ;;
                   ret (match r with Some _ => true | None => false end :: bs)) d1).
    { apply bind_ext_l, IH. }
    rewrite bind_assoc. apply bind_ext. intros xs d2.
    rewrite bind_ret_l, bind_assoc. apply bind_ext. intros ys d3.
    by rewrite bind_ret_l.
Qed.

(** A loop whose body posts [reqs_of x] posts the concatenation. *)
Lemma for_each_issue {A} (reqs_of : A → list soap_request)
    (body : A → M Dev unit) (l : list A) :
  (∀ x d, body x d = (_ <- issue post (reqs_of x) ;; ret tt) d) →
  ∀ d, for_each l body d = (_ <- issue post (flat_map reqs_of l) ;; ret tt) d.
Proof.
  intros Hbody. induction l as [|x l IH]; intros d; simpl.
  - by rewrite bind_ret_l.
  - transitivity ((_ <- (_ <- issue post (reqs_of x) ;; ret tt) ;;
                   for_each l body) d).
    { apply bind_ext_l, Hbody. }
    rewrite bind_assoc.
    transitivity ((xs <- issue post (reqs_of x) ;;
                   ys <- issue post (flat_map reqs_of l) ;; ret tt) d).
    { apply bind_ext. intros xs d1. rewrite bind_ret_l. apply IH. }
    rewrite (bind_ext_l _ _ _ _ (issue_app _ _ d)).
    rewrite bind_assoc. apply bind_ext. intros xs d1.
    rewrite bind_assoc. apply bind_ext. intros ys d2.
    by rewrite bind_ret_l.
Qed.

Lemma count_true_app (a b : list bool) :
  count_true (a ++ b) = count_true a + count_true b.
Proof. unfold count_true. rewrite List.filter_app, length_app. lia. Qed.

Lemma count_true_pos (bs : list bool) :
  (0 <? count_true bs) = existsb id bs.
Proof.
  induction bs as [|[] bs IH]; [done| |].
  - unfold count_true. simpl. apply Z.ltb_lt. lia.
  - simpl. rewrite <- IH. done.
Qed.

Lemma for_fold_issue {A} (reqs_of : A → list soap_request)
    (body : A → Z → M Dev Z) (l : list A) :
  (∀ x ok d, body x ok d
             = (bs <- issue post (reqs_of x) ;; ret (ok + count_true bs)) d) →
  ∀ ok d, for_fold l body ok d
          = (bs <- issue post (flat_map reqs_of l) ;; ret (ok + count_true bs)) d.
Proof.
  intros Hbody. induction l as [|x l IH]; intros ok d; simpl.
  - rewrite bind_ret_l. unfold ret, count_true. simpl. by rewrite Z.add_0_r.
  - transitivity ((acc <- (bs <- issue post (reqs_of x) ;; ret (ok + count_true bs)) ;;
                   for_fold l body acc) d).
    { apply bind_ext_l, Hbody. }
    rewrite bind_assoc.
    transitivity ((xs <- issue post (reqs_of x) ;;
                   ys <- issue post (flat_map reqs_of l) ;;
                   ret (ok + count_true (xs ++ ys))) d).
    { apply bind_ext. intros xs d1. rewrite bind_ret_l, IH.
      apply bind_ext. intros ys d2. by rewrite count_true_app, Z.add_assoc. }
    rewrite (bind_ext_l _ _ _ _ (issue_app _ _ d)).
    rewrite bind_assoc. apply bind_ext. intros xs d1.
    rewrite bind_assoc. apply bind_ext. intros ys d2.
    by rewrite bind_ret_l.
Qed.

(** Posting a list of requests either answers all of them, or stops at
    the first one that raises. *)
Lemma issue_cases (reqs : list soap_request) d :
  let x := issue post reqs d in
  (result_of x = Returned (map ev_ok (trace_of x))
   ∧ map fst (trace_of x) = reqs
   ∧ Forall (λ e, e.2 ≠ NoReply) (trace_of x))
  ∨ (result_of x = Raised
     ∧ Exists (λ e, e.2 = NoReply) (trace_of x)
     ∧ map fst (trace_of x) `prefix_of` reqs).
Proof.
  revert d. induction reqs as [|q qs IH]; intros d; cbv zeta; simpl.
  - left. by repeat split.
  - rewrite bind_soap. destruct (post d q) as [d1 [|r]]; simpl.
    + right. repeat split.
      * by apply Exists_cons_hd.
      * by exists qs.
    + specialize (IH d1). cbv zeta in IH. unfold bind, ret.
      destruct (issue post qs d1) as [[d2 t2] r2].
      unfold result_of, trace_of in *. simpl in *.
      destruct IH as [(-> & Hm & Hf)|(-> & He & Hpre)].
      * left. simpl. repeat split.
        -- rewrite app_nil_r. unfold ev_ok. simpl.
           by destruct (status_code r =? 200).
        -- by rewrite app_nil_r, Hm.
        -- rewrite app_nil_r. by constructor.
      * right. simpl. repeat split.
        -- by apply Exists_cons_tl.
        -- by apply prefix_cons.
Qed.

Lemma issue_requests_only (P : event → bool) (reqs : list soap_request) d :
  (∀ q h, q ∈ reqs → P (q, h) = true) →
  Forall (λ e, P e = true) (trace_of (issue post reqs d)).
Proof.
  intros HP. apply Forall_forall. intros [q h] Hin.
  apply HP.
  assert (q ∈ map fst (trace_of (issue post reqs d))) as Hq.
  { apply list_elem_of_fmap. by exists (q, h). }
  destruct (issue_cases reqs d) as [(_ & Hm & _)|(_ & _ & [k Hk])].
  - by rewrite <- Hm.
  - rewrite Hk. apply elem_of_app. by left.
Qed.

End Requests.

(** ** The reconciliation as a sequence of requests *)

Section Reconciliation.

Context {Dev : Type}.
Variable post : Dev → soap_request → Dev * http_result.
Variable FORWARDING_PORTS : list rule.
Implicit Types d : Dev.

Lemma delete_phase_issue (current : list (gmap string pyval)) d :
  delete_phase post FORWARDING_PORTS current d
  = (_ <- issue post (delete_requests FORWARDING_PORTS current) ;; ret tt) d.
Proof.
  unfold delete_phase, delete_requests.
  apply for_each_issue. intros cfg d1.
  apply for_each_issue. intros m d2.
  destruct (matches cfg m); [|simpl; by rewrite bind_ret_l].
  unfold delete_mapping. simpl. rewrite !bind_assoc.
  apply bind_ext. intros r d3. by rewrite !bind_ret_l.
Qed.

Lemma add_phase_issue (master : node) d :
  add_phase post FORWARDING_PORTS master d
  = (bs <- issue post (add_requests FORWARDING_PORTS master) ;;
     ret (count_true bs)) d.
Proof.
  unfold add_phase, add_requests.
  rewrite (for_fold_issue post
             (λ cfg, if bool_decide (external cfg ∈ ports master)
                     then [add_request master cfg] else [])).
  { apply bind_ext. intros bs d1. by rewrite Z.add_0_l. }
  intros cfg ok d1. case_bool_decide.
  - unfold add_mapping, add_request. simpl. rewrite !bind_assoc.
    apply bind_ext. intros r d2. rewrite !bind_ret_l.
    unfold ret, bind, count_true. destruct r; simpl; [done|].
    by rewrite Z.add_0_r.
  - simpl. rewrite bind_ret_l. unfold ret, count_true. simpl.
    by rewrite Z.add_0_r.
Qed.

Lemma update_for_master_issue (fuel : nat) (master : node) d :
  update_for_master post FORWARDING_PORTS fuel master d
  = (current <- get_port_mappings post fuel ;;
     _ <- issue post (delete_requests FORWARDING_PORTS current) ;;
     bs <- issue post (add_requests FORWARDING_PORTS master) ;;
     ret (existsb id bs)) d.
Proof.
  unfold update_for_master. apply bind_ext. intros current d1.
  rewrite (bind_ext_l _ _ _ _ (delete_phase_issue current d1)).
  rewrite bind_assoc. apply bind_ext. intros _ d2. rewrite bind_ret_l.
  rewrite (bind_ext_l _ _ _ _ (add_phase_issue master d2)).
  rewrite bind_assoc. apply bind_ext. intros bs d3. rewrite bind_ret_l.
  unfold ret. by rewrite count_true_pos.
Qed.

(** *** The listing *)

Lemma get_port_mappings_from_queries (fuel idx : nat)
    (ms : list (gmap string pyval)) d :
  let x := get_port_mappings_from post fuel idx ms d in
  map fst (trace_of x)
  = map GetGenericPortMappingEntry (seq idx (length (trace_of x))).
Proof.
  revert idx ms d. induction fuel as [|fuel IH]; intros idx ms d; [done|].
  cbv zeta. simpl get_port_mappings_from. rewrite bind_soap.
  destruct (post d (GetGenericPortMappingEntry idx)) as [d1 [|r]]; [done|].
  simpl. destruct (status_code r =? 200); [|done].
  destruct (elements r) as [elems|]; [|done].
  specialize (IH (S idx) (ms ++ [parse_mapping elems idx]) d1).
  cbv zeta in IH.
  destruct (get_port_mappings_from post fuel (S idx) _ d1) as [[d2 t2] r2].
  unfold trace_of in *. simpl in *. by rewrite IH.
Qed.

Lemma get_port_mappings_from_gets (fuel idx : nat)
    (ms : list (gmap string pyval)) d :
  Forall (λ e, is_get e = true)
    (trace_of (get_port_mappings_from post fuel idx ms d)).
Proof.
  pose proof (get_port_mappings_from_queries fuel idx ms d) as H.
  cbv zeta in H. apply Forall_forall. intros [q h] Hin.
  assert (q ∈ map fst (trace_of (get_port_mappings_from post fuel idx ms d)))
    as Hq by (apply list_elem_of_fmap; by exists (q, h)).
  rewrite H in Hq. apply list_elem_of_fmap in Hq as (i & -> & _). done.
Qed.

Lemma listing_events_cons (idx : nat) (es : list (string * string))
    (ess : list (list (string * string))) (h : http_result) :
  listing_events idx (es :: ess) h
  = (GetGenericPortMappingEntry idx, Reply (Response 200 (Some es)))
    :: listing_events (S idx) ess h.
Proof.
  unfold listing_events. simpl. rewrite Nat.add_0_r, Nat.add_succ_r.
  do 2 f_equal. apply imap_ext. intros i x _. simpl.
  by rewrite Nat.add_succ_r.
Qed.

Lemma listed_mappings_cons (idx : nat) (es : list (string * string))
    (ess : list (list (string * string))) :
  listed_mappings idx (es :: ess)
  = parse_mapping es idx :: listed_mappings (S idx) ess.
Proof.
  unfold listed_mappings. simpl. rewrite Nat.add_0_r. f_equal.
  apply imap_ext. intros i x _. simpl. by rewrite Nat.add_succ_r.
Qed.

Lemma listing_events_replies (idx : nat)
    (ess : list (list (string * string))) (h : http_result) :
  map snd (listing_events idx ess h)
  = map (λ es, Reply (Response 200 (Some es))) ess ++ [h].
Proof.
  revert idx. induction ess as [|es ess IH]; intros idx; [done|].
  rewrite listing_events_cons. simpl. by rewrite IH.
Qed.

Lemma get_port_mappings_from_listing (ess : list (list (string * string))) :
  ∀ d idx ms d_end h_end fuel,
    answers_listing post d idx ess d_end h_end →
    ends_listing h_end = true →
    (length ess < fuel)%nat →
    get_port_mappings_from post fuel idx ms d
    = (d_end, listing_events idx ess h_end,
       Returned (ms ++ listed_mappings idx ess)).
Proof.
  induction ess as [|es ess IH]; intros d idx ms d_end h_end fuel Ha He Hf;
    (destruct fuel as [|fuel]; [simpl in Hf; lia|]);
    simpl get_port_mappings_from; rewrite bind_soap; simpl in Ha.
  - rewrite Ha. simpl. unfold listing_events, listed_mappings. simpl.
    rewrite Nat.add_0_r, app_nil_r.
    destruct h_end as [|r]; [done|]. simpl in He.
    destruct (status_code r =? 200); [|done].
    destruct (elements r); [done|done].
  - destruct Ha as (d1 & Hp & Ha). rewrite Hp. simpl.
    rewrite (IH d1 (S idx) _ d_end h_end fuel Ha He) by (simpl in Hf; lia).
    by rewrite listing_events_cons, listed_mappings_cons, <- app_assoc.
Qed.

(** A request of the listing that raises is not caught: the call raises. *)
Lemma get_port_mappings_from_raises (ess : list (list (string * string))) :
  ∀ d idx ms d_end fuel,
    answers_listing post d idx ess d_end NoReply →
    (length ess < fuel)%nat →
    result_of (get_port_mappings_from post fuel idx ms d) = Raised.
Proof.
  induction ess as [|es ess IH]; intros d idx ms d_end fuel Ha Hf;
    (destruct fuel as [|fuel]; [simpl in Hf; lia|]);
    simpl get_port_mappings_from; rewrite bind_soap; simpl in Ha.
  - by rewrite Ha.
  - destruct Ha as (d1 & Hp & Ha). rewrite Hp. simpl.
    specialize (IH d1 (S idx) (ms ++ [parse_mapping es idx]) d_end fuel Ha).
    destruct (get_port_mappings_from post fuel (S idx) _ d1) as [[d2 t2] r2].
    unfold result_of in *. simpl in *. apply IH. lia.
Qed.

(** C7.  [get_port_mappings] asks for the indices 0, 1, 2, ... in turn and
    stops at the first answer that failed or does not parse: when the
    device answers the indices below [n] with parseable successes and the
    index [n] with such a failure, the call returns, with any fuel above
    [n], after exactly the requests for 0, ..., [n], and its result is the
    list of the [n] mappings read before the failure. *)
Theorem get_port_mappings_terminates
    (d d_end : Dev) (ess : list (list (string * string)))
    (h_end : http_result) (fuel : nat) :
  answers_listing post d 0 ess d_end h_end →
  ends_listing h_end = true →
  (length ess < fuel)%nat →
  ∃ tr,
    get_port_mappings post fuel d
    = (d_end, tr, Returned (imap (λ i es, parse_mapping es i) ess))
    ∧ map fst tr = map GetGenericPortMappingEntry (seq 0 (S (length ess)))
    ∧ map snd tr
      = map (λ es, Reply (Response 200 (Some es))) ess ++ [h_end].
Proof.
  intros Ha He Hf. exists (listing_events 0 ess h_end).
  unfold get_port_mappings.
  rewrite (get_port_mappings_from_listing ess d 0%nat [] d_end h_end fuel Ha He Hf).
  split; [done|].
  pose proof (get_port_mappings_from_queries fuel 0 [] d) as Hq.
  cbv zeta in Hq.
  rewrite (get_port_mappings_from_listing ess d 0%nat [] d_end h_end fuel Ha He Hf)
    in Hq.
  unfold trace_of in Hq. simpl in Hq. split.
  - rewrite Hq. unfold listing_events.
    by rewrite length_app, length_imap, Nat.add_comm.
  - apply listing_events_replies.
Qed.

(** *** The shape of a run *)

Lemma issue_never_unfinished (reqs : list soap_request) d :
  result_of (issue post reqs d) ≠ Unfinished.
Proof.
  destruct (issue_cases post reqs d) as [(H & _)|(H & _)];
    cbv zeta in H; by rewrite H.
Qed.

(** How a reconciliation ends, and what it has posted by then. *)
Lemma update_for_master_cases (fuel : nat) (master : node) d :
  let x := update_for_master post FORWARDING_PORTS fuel master d in
  let g := get_port_mappings post fuel d in
  (∃ current td ta,
      result_of g = Returned current
      ∧ trace_of x = trace_of g ++ td ++ ta
      ∧ map fst td = delete_requests FORWARDING_PORTS current
      ∧ map fst ta = add_requests FORWARDING_PORTS master
      ∧ Forall (λ e, e.2 ≠ NoReply) (td ++ ta)
      ∧ result_of x = Returned (existsb ev_ok ta))
  ∨ (∃ current td ta,
      result_of g = Returned current
      ∧ trace_of x = trace_of g ++ td ++ ta
      ∧ map fst td `prefix_of` delete_requests FORWARDING_PORTS current
      ∧ map fst ta `prefix_of` add_requests FORWARDING_PORTS master
      ∧ (ta ≠ [] → map fst td = delete_requests FORWARDING_PORTS current)
      ∧ Exists (λ e, e.2 = NoReply) (td ++ ta)
      ∧ result_of x = Raised)
  ∨ (trace_of x = trace_of g
     ∧ ((result_of g = Raised ∧ result_of x = Raised)
        ∨ (result_of g = Unfinished ∧ result_of x = Unfinished))).
Proof.
  intros x g. subst x.
  assert (∀ y, y = update_for_master post FORWARDING_PORTS fuel master d →
               trace_of y = trace_of (update_for_master post FORWARDING_PORTS fuel master d)
               ∧ result_of y = result_of (update_for_master post FORWARDING_PORTS fuel master d))
    as Hy by (by intros ? ->).
  destruct (Hy _ (eq_sym (update_for_master_issue fuel master d))) as [<- <-].
  clear Hy. fold g.
  destruct (bind_cases (get_port_mappings post fuel)
    (λ current, _ <- issue post (delete_requests FORWARDING_PORTS current) ;;
                bs <- issue post (add_requests FORWARDING_PORTS master) ;;
                ret (existsb id bs)) d)
    as [(current & Hg & _ & Ht & Hr)|[(Hg & _ & Ht & Hr)|(Hg & _ & Ht & Hr)]];
    fold g in Hg, Ht, Hr; rewrite Ht, Hr; clear Ht Hr;
    [|right; right; split; [done|by left]
     |right; right; split; [done|by right]].
  set (d1 := state_of g).
  destruct (bind_cases (issue post (delete_requests FORWARDING_PORTS current))
    (λ _, bs <- issue post (add_requests FORWARDING_PORTS master) ;;
          ret (existsb id bs)) d1)
    as [(ds & Hd & _ & Ht & Hr)|[(Hd & _ & Ht & Hr)|(Hd & _ & Ht & Hr)]];
    rewrite Ht, Hr; clear Ht Hr;
    [| |by destruct (issue_never_unfinished _ _ Hd)].
  - set (td := trace_of (issue post (delete_requests FORWARDING_PORTS current) d1)).
    set (d2 := state_of (issue post (delete_requests FORWARDING_PORTS current) d1)).
    destruct (issue_cases post (delete_requests FORWARDING_PORTS current) d1)
      as [(_ & Hdm & Hdf)|(Hd' & _)];
      cbv zeta in *; [|rewrite Hd' in Hd; done].
    fold td in Hdm, Hdf.
    destruct (bind_cases (issue post (add_requests FORWARDING_PORTS master))
      (λ bs, ret (existsb id bs)) d2)
      as [(bs & Ha & _ & Ht & Hr)|[(Ha & _ & Ht & Hr)|(Ha & _ & Ht & Hr)]];
      rewrite Ht, Hr; clear Ht Hr;
      [| |by destruct (issue_never_unfinished _ _ Ha)].
    + set (ta := trace_of (issue post (add_requests FORWARDING_PORTS master) d2)).
      destruct (issue_cases post (add_requests FORWARDING_PORTS master) d2)
        as [(Ha' & Ham & Haf)|(Ha' & _)];
        cbv zeta in *; [|rewrite Ha' in Ha; done].
      fold ta in Ha', Ham, Haf. rewrite Ha' in Ha. injection Ha as <-.
      left. exists current, td, ta. unfold ret, trace_of, result_of at 2.
      simpl. rewrite app_nil_r. repeat split; try done.
      * by apply Forall_app.
      * f_equal. clear. induction ta as [|e ta IH]; [done|].
        simpl. by rewrite IH.
    + set (ta := trace_of (issue post (add_requests FORWARDING_PORTS master) d2)).
      destruct (issue_cases post (add_requests FORWARDING_PORTS master) d2)
        as [(Ha' & _)|(_ & Hae & Hap)];
        cbv zeta in *; [rewrite Ha' in Ha; done|].
      fold ta in Hae, Hap.
      right. left. exists current, td, ta. repeat split; try done.
      * by rewrite Hdm.
      * apply Exists_app. by right.
  - set (td := trace_of (issue post (delete_requests FORWARDING_PORTS current) d1)).
    destruct (issue_cases post (delete_requests FORWARDING_PORTS current) d1)
      as [(Hd' & _)|(_ & Hde & Hdp)];
      cbv zeta in *; [rewrite Hd' in Hd; done|].
    fold td in Hde, Hdp.
    right. left. exists current, td, []. rewrite !app_nil_r.
    repeat split; try done.
    exists (add_requests FORWARDING_PORTS master). done.
Qed.

Lemma delete_requests_deletes (current : list (gmap string pyval))
    (q : soap_request) (h : http_result) :
  q ∈ delete_requests FORWARDING_PORTS current → is_delete (q, h) = true.
Proof.
  unfold delete_requests. rewrite !list_elem_of_In, in_flat_map.
  intros (cfg & _ & Hq). apply in_flat_map in Hq as (m & _ & Hq).
  destruct (matches cfg m); [|done]. by destruct Hq as [<-|[]].
Qed.

Lemma add_requests_adds (master : node) (q : soap_request) (h : http_result) :
  q ∈ add_requests FORWARDING_PORTS master → is_add (q, h) = true.
Proof.
  unfold add_requests. rewrite !list_elem_of_In, in_flat_map.
  intros (cfg & _ & Hq). case_bool_decide; [|done].
  by destruct Hq as [<-|[]].
Qed.

Lemma prefix_requests_only (P : event → bool) (tr : list event)
    (reqs : list soap_request) :
  map fst tr `prefix_of` reqs →
  (∀ q h, q ∈ reqs → P (q, h) = true) →
  Forall (λ e, P e = true) tr.
Proof.
  intros [k Hk] HP. apply Forall_forall. intros [q h] Hin. apply HP.
  rewrite Hk. apply elem_of_app. left.
  apply list_elem_of_fmap. by exists (q, h).
Qed.

Lemma delete_requests_complete (current : list (gmap string pyval))
    (cfg : rule) (m : gmap string pyval) :
  cfg ∈ FORWARDING_PORTS → m ∈ current → matches cfg m = true →
  DeletePortMapping (external cfg) (proto cfg)
  ∈ delete_requests FORWARDING_PORTS current.
Proof.
  intros Hc Hm Hmatch. unfold delete_requests.
  apply list_elem_of_In, in_flat_map. exists cfg.
  split; [by apply list_elem_of_In|].
  apply in_flat_map. exists m. split; [by apply list_elem_of_In|].
  rewrite Hmatch. by left.
Qed.

Lemma add_requests_complete (master : node) (cfg : rule) :
  cfg ∈ FORWARDING_PORTS → external cfg ∈ ports master →
  add_request master cfg ∈ add_requests FORWARDING_PORTS master.
Proof.
  intros Hc Hp. unfold add_requests.
  apply list_elem_of_In, in_flat_map. exists cfg.
  split; [by apply list_elem_of_In|].
  rewrite bool_decide_eq_true_2 by done. by left.
Qed.

(** The requests of a run come in three blocks. *)
Lemma update_for_master_blocks (fuel : nat) (master : node) d :
  ∃ tg td ta,
    trace_of (update_for_master post FORWARDING_PORTS fuel master d)
    = tg ++ td ++ ta
    ∧ tg = trace_of (get_port_mappings post fuel d)
    ∧ Forall (λ e, is_get e = true) tg
    ∧ Forall (λ e, is_delete e = true) td
    ∧ Forall (λ e, is_add e = true) ta
    ∧ (ta ≠ [] →
       ∃ current,
         result_of (get_port_mappings post fuel d) = Returned current
         ∧ map fst td = delete_requests FORWARDING_PORTS current).
Proof.
  pose proof (get_port_mappings_from_gets fuel 0 [] d) as Hgets.
  fold (get_port_mappings post fuel d) in Hgets.
  destruct (update_for_master_cases fuel master d)
    as [(current & td & ta & Hg & Ht & Hd & Ha & _ & _)
       |[(current & td & ta & Hg & Ht & Hd & Ha & Hfull & _ & _)
        |(Ht & _)]]; cbv zeta in *.
  - exists (trace_of (get_port_mappings post fuel d)), td, ta.
    repeat split; try done.
    + apply (prefix_requests_only _ _ (delete_requests FORWARDING_PORTS current)).
      * by rewrite Hd.
      * intros q h. apply delete_requests_deletes.
    + apply (prefix_requests_only _ _ (add_requests FORWARDING_PORTS master)).
      * by rewrite Ha.
      * intros q h. apply add_requests_adds.
    + intros _. by exists current.
  - exists (trace_of (get_port_mappings post fuel d)), td, ta.
    repeat split; try done.
    + apply (prefix_requests_only _ _ (delete_requests FORWARDING_PORTS current));
        [done|]. intros q h. apply delete_requests_deletes.
    + apply (prefix_requests_only _ _ (add_requests FORWARDING_PORTS master));
        [done|]. intros q h. apply add_requests_adds.
    + intros Hne. exists current. split; [done|by apply Hfull].
  - exists (trace_of (get_port_mappings post fuel d)), [], [].
    rewrite !app_nil_r. repeat split; try done.
Qed.

(** C4.  In every run of [update_for_master], whatever the device answers
    and however the run ends, the requests come in three blocks: the
    listing, then the removes, then the adds.  An add is posted only after
    the remove loop has gone through the whole rule set, and every remove of
    the run precedes every add. *)
Theorem removes_before_adds (fuel : nat) (master : node) d :
  let tr := trace_of (update_for_master post FORWARDING_PORTS fuel master d) in
  (∃ tg td ta,
      tr = tg ++ td ++ ta
      ∧ Forall (λ e, is_get e = true) tg
      ∧ Forall (λ e, is_delete e = true) td
      ∧ Forall (λ e, is_add e = true) ta
      ∧ (ta ≠ [] →
         ∃ current,
           result_of (get_port_mappings post fuel d) = Returned current
           ∧ map fst td = delete_requests FORWARDING_PORTS current))
  ∧ (∀ (i j : nat) (ea ed : event),
       tr !! i = Some ea → tr !! j = Some ed →
       is_add ea = true → is_delete ed = true → (j < i)%nat).
Proof.
  intros tr.
  destruct (update_for_master_blocks fuel master d)
    as (tg & td & ta & Ht & _ & Hg & Hd & Ha & Hfull).
  fold tr in Ht. split.
  { exists tg, td, ta. done. }
  intros i j ea ed Hi Hj Hea Hed. rewrite Ht, app_assoc in Hi, Hj.
  assert (∀ e, is_add e = true → is_delete e = true → False) as Hx.
  { intros [[] ?]; unfold is_add, is_delete; simpl; done. }
  assert (∀ e, is_get e = true → is_delete e = true → False) as Hy.
  { intros [[] ?]; unfold is_get, is_delete; simpl; done. }
  assert (∀ e, is_get e = true → is_add e = true → False) as Hz.
  { intros [[] ?]; unfold is_get, is_add; simpl; done. }
  apply lookup_app_Some in Hi as [Hi|[Hl Hi]].
  - exfalso. apply lookup_app_Some in Hi as [Hi|[_ Hi]];
      apply list_elem_of_lookup_2 in Hi.
    + apply (Hz ea); [|done]. by apply (proj1 (Forall_forall _ _) Hg).
    + apply (Hx ea); [done|]. by apply (proj1 (Forall_forall _ _) Hd).
  - apply lookup_app_Some in Hj as [Hj|[_ Hj]].
    + apply lookup_lt_Some in Hj. lia.
    + exfalso. apply list_elem_of_lookup_2 in Hj.
      apply (Hx ed); [|done]. by apply (proj1 (Forall_forall _ _) Ha).
Qed.

(** C3.  In a run whose listing returned [current] and in which every
    request was answered (with whatever status), the remove loop posts a
    remove for every configured rule that matches a listed mapping and the
    add loop posts an add for every configured rule whose external port
    belongs to the new master: the requests after the listing are exactly
    [delete_requests current] followed by [add_requests master], whichever
    of them failed.  The run returns [True] if and only if one of the adds
    was answered with status 200. *)
Theorem partial_failures_contained
    (fuel : nat) (master : node) d (current : list (gmap string pyval)) :
  result_of (get_port_mappings post fuel d) = Returned current →
  Forall (λ e, e.2 ≠ NoReply)
    (trace_of (update_for_master post FORWARDING_PORTS fuel master d)) →
  ∃ td ta,
    trace_of (update_for_master post FORWARDING_PORTS fuel master d)
    = trace_of (get_port_mappings post fuel d) ++ td ++ ta
    ∧ map fst td = delete_requests FORWARDING_PORTS current
    ∧ map fst ta = add_requests FORWARDING_PORTS master
    ∧ (∀ cfg m, cfg ∈ FORWARDING_PORTS → m ∈ current →
                matches cfg m = true →
                DeletePortMapping (external cfg) (proto cfg) ∈ map fst td)
    ∧ (∀ cfg, cfg ∈ FORWARDING_PORTS → external cfg ∈ ports master →
              add_request master cfg ∈ map fst ta)
    ∧ ∃ b, result_of (update_for_master post FORWARDING_PORTS fuel master d)
           = Returned b
           ∧ (b = true ↔ ∃ e, e ∈ ta ∧ ev_ok e = true).
Proof.
  intros Hg Hall.
  destruct (update_for_master_cases fuel master d)
    as [(current' & td & ta & Hg' & Ht & Hd & Ha & _ & Hr)
       |[(current' & td & ta & _ & Ht & _ & _ & _ & Hex & _)
        |(_ & [[Hg' _]|[Hg' _]])]]; cbv zeta in *.
  - rewrite Hg in Hg'. injection Hg' as <-.
    exists td, ta. repeat split; try done.
    + intros cfg m Hc Hm Hmatch. rewrite Hd.
      by apply (delete_requests_complete current cfg m).
    + intros cfg Hc Hp. rewrite Ha. by apply add_requests_complete.
    + exists (existsb ev_ok ta). split; [done|].
      rewrite existsb_exists. setoid_rewrite list_elem_of_In. done.
  - exfalso. rewrite Ht in Hall.
    apply Forall_app in Hall as [_ Hall].
    apply Exists_exists in Hex as (e & He & Hn).
    by apply (proj1 (Forall_forall _ _) Hall e He).
  - by rewrite Hg in Hg'.
  - by rewrite Hg in Hg'.
Qed.

(** A node without ports gets no add, and its reconciliation does not
    return [True]; it returns [False] whenever the listing returns and the
    removes are answered. *)
Lemma update_for_master_no_ports (fuel : nat) (master : node) d :
  ports master = [] →
  let x := update_for_master post FORWARDING_PORTS fuel master d in
  Forall (λ e, is_add e = false) (trace_of x)
  ∧ result_of x ≠ Returned true
  ∧ (is_Some (match result_of (get_port_mappings post fuel d) with
              | Returned c => Some c | _ => None end) →
     Forall (λ e, e.2 ≠ NoReply) (trace_of x) →
     result_of x = Returned false).
Proof.
  intros Hp x.
  assert (add_requests FORWARDING_PORTS master = []) as Hno.
  { unfold add_requests. induction FORWARDING_PORTS as [|cfg l IH]; [done|].
    simpl. rewrite IH, Hp. by rewrite bool_decide_eq_false_2 by apply not_elem_of_nil. }
  assert (∀ e, is_get e = true ∨ is_delete e = true → is_add e = false) as Hx.
  { intros [[] ?]; unfold is_get, is_delete, is_add; simpl; intros [?|?]; done. }
  subst x.
  destruct (update_for_master_cases fuel master d)
    as [(current & td & ta & Hg & Ht & Hd & Ha & _ & Hr)
       |[(current & td & ta & Hg & Ht & Hd & [k Ha] & _ & Hex & Hr)
        |(Ht & Hr)]]; cbv zeta in *.
  - rewrite Hno in Ha. apply fmap_nil_inv in Ha as ->.
    pose proof (update_for_master_blocks fuel master d)
      as (tg & td' & ta' & Ht' & -> & Hgets & Hdels & _).
    rewrite Ht, Hr, app_nil_r. repeat split; try done.
    apply Forall_app. split.
    + eapply Forall_impl; [exact Hgets|]. intros e He. apply Hx. by left.
    + apply (Forall_impl (λ e, is_delete e = true)).
      * apply (prefix_requests_only _ _ (delete_requests FORWARDING_PORTS current)).
        -- by rewrite Hd.
        -- intros q h. apply delete_requests_deletes.
      * intros e He. apply Hx. by right.
  - rewrite Hno in Ha. symmetry in Ha. apply app_eq_nil in Ha as [Ha _].
    apply fmap_nil_inv in Ha as ->.
    rewrite Ht, Hr, app_nil_r in *. repeat split; try done.
    + apply Forall_app. split.
      * pose proof (get_port_mappings_from_gets fuel 0 [] d) as Hgets.
        eapply Forall_impl; [exact Hgets|]. intros e He. apply Hx. by left.
      * apply (Forall_impl (λ e, is_delete e = true)).
        -- apply (prefix_requests_only _ _ (delete_requests FORWARDING_PORTS current));
             [done|]. intros q h. apply delete_requests_deletes.
        -- intros e He. apply Hx. by right.
    + intros _ Hall. exfalso. apply Forall_app in Hall as [_ Hall].
      apply Exists_exists in Hex as (e & He & Hn).
      by apply (proj1 (Forall_forall _ _) Hall e He).
  - rewrite Ht. repeat split.
    + pose proof (get_port_mappings_from_gets fuel 0 [] d) as Hgets.
      eapply Forall_impl; [exact Hgets|]. intros e He. apply Hx. by left.
    + destruct Hr as [[_ ->]|[_ ->]]; done.
    + intros [c Hc]. destruct Hr as [[Hr _]|[Hr _]]; rewrite Hr in Hc; done.
Qed.

End Reconciliation.

(** ** Master detection *)

Section Detection.

Variable env : probe_env.

(** The cases of one pass of the loop of [check_nodes]. *)
Ltac check_nodes_step ip Hs :=
  simpl;
  destruct (status env ip) as [|? [?|]] eqn:Hs; simpl;
  repeat match goal with
         | |- context [?a =? ?b] => destruct (Z.eqb_spec a b); simpl
         | |- context [existsb is_carp_master ?l] =>
             destruct (existsb is_carp_master l) eqn:?; simpl
         end.

Ltac split_elem_of Hin :=
  repeat match type of Hin with
         | _ ∈ _ :: _ => apply elem_of_cons in Hin as [Hin|Hin]
         | _ ∈ [] => by apply elem_of_nil in Hin
         end;
  simplify_eq.

Lemma check_nodes_pinged (nodes : list (string * node)) (ip : string) :
  Pinged ip ∈ (check_nodes env nodes).2 →
  query_raises (status env ip) = true.
Proof.
  induction nodes as [|[ip0 cfg] rest IH]; [by intros ?%elem_of_nil|].
  check_nodes_step ip0 Hs; intros Hin; split_elem_of Hin; auto;
    rewrite Hs; simpl; try done; by apply Z.eqb_eq.
Qed.

Lemma check_nodes_master (nodes : list (string * node)) (ip : string) :
  Master ip ∈ (check_nodes env nodes).2 →
  reports_master (status env ip) = true.
Proof.
  induction nodes as [|[ip0 cfg] rest IH]; [by intros ?%elem_of_nil|].
  check_nodes_step ip0 Hs; intros Hin; split_elem_of Hin; auto.
  rewrite Hs. simpl. try done.
  all: apply andb_true_iff; split; [by apply Z.eqb_eq|done].
Qed.

Lemma check_nodes_fallback (nodes : list (string * node)) (ip : string) :
  FallbackMaster ip ∈ (check_nodes env nodes).2 →
  query_raises (status env ip) = true ∧ ping env ip = 0.
Proof.
  induction nodes as [|[ip0 cfg] rest IH]; [by intros ?%elem_of_nil|].
  check_nodes_step ip0 Hs; intros Hin; split_elem_of Hin; auto;
    rewrite Hs; simpl; split; try done; by apply Z.eqb_eq.
Qed.

Lemma check_nodes_result (nodes : list (string * node)) (c : node) :
  (check_nodes env nodes).1 = Some c →
  ∃ ip, (ip, c) ∈ nodes
        ∧ (Master ip ∈ (check_nodes env nodes).2
           ∨ FallbackMaster ip ∈ (check_nodes env nodes).2).
Proof.
  induction nodes as [|[ip0 cfg] rest IH]; [done|].
  check_nodes_step ip0 Hs; intros Hc;
    first
      [ injection Hc as <-; exists ip0; split; [apply list_elem_of_here|];
        first [left; by repeat constructor | right; by repeat constructor]
      | destruct (IH Hc) as (ip & Hin & Hev); exists ip;
        split; [by apply list_elem_of_further|];
        destruct Hev; [left|right]; by repeat apply list_elem_of_further ].
Qed.

(** C10.  A node whose status query is answered with a status other than
    200 is passed over: the detection neither declares it master, by the
    status or by the fallback, nor pings it, and a node that the detection
    returns is another entry of [OPNSENSE_NODES].  No node is pinged unless
    its status query raised (the request failed or the body of a 200
    response did not parse). *)
Theorem non_success_status_is_skipped
    (nodes : list (string * node)) (ip : string) (code : Z)
    (body : option (list string)) :
  status env ip = GetReply code body →
  code ≠ 200 →
  let r := check_opnsense_master nodes env in
  (Master ip ∉ r.2) ∧ (FallbackMaster ip ∉ r.2) ∧ (Pinged ip ∉ r.2)
  ∧ (∀ c, r.1 = Some c →
          ∃ ip', ip' ≠ ip ∧ (ip', c) ∈ nodes
                 ∧ (Master ip' ∈ r.2 ∨ FallbackMaster ip' ∈ r.2))
  ∧ (∀ ip', Pinged ip' ∈ r.2 → query_raises (status env ip') = true).
Proof.
  intros Hs Hcode r. subst r. unfold check_opnsense_master.
  assert (query_raises (status env ip) = false) as Hq.
  { rewrite Hs. simpl. by destruct (Z.eqb_spec code 200). }
  assert (reports_master (status env ip) = false) as Hm.
  { rewrite Hs. simpl. destruct body; [|done]. by destruct (Z.eqb_spec code 200). }
  assert (Master ip ∉ (check_nodes env nodes).2) as H1.
  { intros Hin%check_nodes_master. by rewrite Hm in Hin. }
  assert (FallbackMaster ip ∉ (check_nodes env nodes).2) as H2.
  { intros [Hin _]%check_nodes_fallback. by rewrite Hq in Hin. }
  assert (Pinged ip ∉ (check_nodes env nodes).2) as H3.
  { intros Hin%check_nodes_pinged. by rewrite Hq in Hin. }
  repeat split; try done.
  - intros c Hc. destruct (check_nodes_result nodes c Hc) as (ip' & Hin & Hev).
    exists ip'. repeat split; try done.
    intros ->. by destruct Hev.
  - intros ip'. apply check_nodes_pinged.
Qed.

(** C6, as the script has it.  When the status query of the first node
    raises and its ping fails too, and the second node answers 200 and
    reports the master role, the detection returns the second node, and the
    second node is not pinged. *)
Theorem second_node_detected (ipA ipB : string) (A B : node) :
  query_raises (status env ipA) = true →
  ping env ipA ≠ 0 →
  reports_master (status env ipB) = true →
  let r := check_opnsense_master [(ipA, A); (ipB, B)] env in
  r = (Some B, [Queried ipA; Pinged ipA; Queried ipB; Master ipB])
  ∧ Pinged ipB ∉ r.2.
Proof.
  intros HA Hping HB r.
  assert (ipA ≠ ipB) as Hne.
  { intros ->. destruct (status env ipB) as [|code [ifaces|]]; simpl in *;
      try done. by destruct (code =? 200). }
  assert (r = (Some B, [Queried ipA; Pinged ipA; Queried ipB; Master ipB]))
    as Hr.
  { subst r. unfold check_opnsense_master. simpl.
    destruct (Z.eqb_spec (ping env ipA) 0) as [?|_]; [done|].
    destruct (status env ipB) as [|codeB [ifaces|]]; simpl in HB; try done.
    apply andb_true_iff in HB as [->%Z.eqb_eq ->]. simpl.
    destruct (status env ipA) as [|codeA [?|]]; simpl in HA; try done.
    - by rewrite andb_false_r in HA.
    - rewrite andb_true_r in HA. by rewrite HA. }
  split; [done|]. rewrite Hr. simpl. intros Hin. split_elem_of Hin.
Qed.

End Detection.

(** ** The polling loop *)

Section Controller.

Context {Dev : Type}.
Variable post : Dev → soap_request → Dev * http_result.
Variable FORWARDING_PORTS : list rule.
Variable OPNSENSE_NODES : list (string * node).
Implicit Types d : Dev.

Local Abbreviation detect env := (check_opnsense_master OPNSENSE_NODES env).1.
Local Abbreviation reconcile := (update_for_master post FORWARDING_PORTS).
Local Abbreviation step := (tick post FORWARDING_PORTS OPNSENSE_NODES).
Local Abbreviation loop := (main_loop post FORWARDING_PORTS OPNSENSE_NODES).

(** A pass that does not reconcile posts nothing. *)
Lemma tick_idle env fuel current d :
  detect env = None ∨ detect env = current →
  step env fuel current d = (d, [], Returned current).
Proof.
  intros H. unfold tick.
  destruct (detect env) as [master|] eqn:Hd; [|done].
  destruct H as [?|<-]; [done|].
  by rewrite bool_decide_eq_false_2 by (by intros ?).
Qed.

(** A pass that reconciles ends as the reconciliation does. *)
Lemma tick_reconcile env fuel current master d :
  detect env = Some master → Some master ≠ current →
  let x := step env fuel current d in
  let u := reconcile fuel master d in
  state_of x = state_of u ∧ trace_of x = trace_of u
  ∧ result_of x = match result_of u with
                  | Returned true => Returned (Some master)
                  | Returned false | Raised => Returned current
                  | Unfinished => Unfinished
                  end.
Proof.
  intros Hd Hne. cbv zeta. unfold tick. rewrite Hd.
  rewrite bool_decide_eq_true_2 by done.
  unfold try_except, bind, ret, state_of, trace_of, result_of.
  destruct (reconcile fuel master d) as [[d1 t1] [[|]| |]]; simpl;
    by rewrite ?app_nil_r.
Qed.

Lemma tick_result env fuel current d c' :
  result_of (step env fuel current d) = Returned c' →
  c' = current
  ∨ ∃ master, detect env = Some master ∧ Some master ≠ current
              ∧ c' = Some master
              ∧ result_of (reconcile fuel master d) = Returned true.
Proof.
  intros Hr. destruct (detect env) as [master|] eqn:Hd.
  - destruct (decide (Some master = current)) as [Heq|Hn].
    + rewrite tick_idle in Hr by (right; by rewrite Hd).
      injection Hr as <-. by left.
    + destruct (tick_reconcile env fuel current master d Hd Hn)
        as (_ & _ & Hx). cbv zeta in Hx. rewrite Hx in Hr.
      destruct (result_of (reconcile fuel master d)) as [[|]| |] eqn:Hu;
        simplify_eq; [right; by exists master|by left|by left].
  - rewrite tick_idle in Hr by (left; by rewrite Hd).
    injection Hr as <-. by left.
Qed.

(** C5, as the script has it.  The recorded master changes in a pass only
    to a newly detected node whose reconciliation returned [True].  A pass
    in which nothing is detected, or in which the detected node equals the
    recorded one, posts no request and leaves the device and the recorded
    master as they were.  A pass whose reconciliation returns [False]
    leaves the recorded master as it was; the device is then in the state
    in which that reconciliation left it. *)
Theorem recorded_master_changes_on_success env fuel current d :
  let x := step env fuel current d in
  (∀ c', result_of x = Returned c' → c' ≠ current →
         ∃ master, detect env = Some master ∧ Some master ≠ current
                   ∧ result_of (reconcile fuel master d) = Returned true
                   ∧ c' = Some master)
  ∧ (detect env = None ∨ detect env = current →
     x = (d, [], Returned current))
  ∧ (∀ master, detect env = Some master →
               result_of (reconcile fuel master d) = Returned false →
               result_of x = Returned current
               ∧ (Some master ≠ current →
                  state_of x = state_of (reconcile fuel master d))).
Proof.
  intros x. subst x. repeat split.
  - intros c' Hr Hne.
    destruct (tick_result env fuel current d c' Hr)
      as [?|(master & ? & ? & ? & ?)]; [done|]. by exists master.
  - apply tick_idle.
  - destruct (decide (Some master = current)) as [Heq|Hn].
    + rewrite tick_idle; [done|]. right. by rewrite H.
    + destruct (tick_reconcile env fuel current master d H Hn)
        as (_ & _ & Hx). cbv zeta in Hx. by rewrite Hx, H0.
  - intros Hn.
    by destruct (tick_reconcile env fuel current master d H Hn) as (Hs & _).
Qed.

Lemma main_loop_idle inputs master d :
  Forall (λ i, detect i.1 = Some master) inputs →
  loop inputs (Some master) d = (d, [], Returned (Some master)).
Proof.
  induction inputs as [|[env fuel] rest IH]; intros Hall; [done|].
  apply Forall_cons in Hall as [Hd Hall]. simpl in *.
  unfold bind. rewrite tick_idle by (by right).
  by rewrite (IH Hall).
Qed.

(** Once a pass has reconciled for [master] with result [True] --
    whether or not some of its adds failed -- every later pass that detects
    [master] again posts no request at all: after any number of such passes
    the device is in the state in which the reconciliation left it, and
    [master] is still the recorded master. *)
Theorem no_retry_while_master_unchanged env0 fuel0 current0 d0 master :
  detect env0 = Some master →
  Some master ≠ current0 →
  result_of (reconcile fuel0 master d0) = Returned true →
  let x0 := step env0 fuel0 current0 d0 in
  result_of x0 = Returned (Some master)
  ∧ state_of x0 = state_of (reconcile fuel0 master d0)
  ∧ ∀ inputs,
      Forall (λ i, detect i.1 = Some master) inputs →
      loop inputs (Some master) (state_of x0)
      = (state_of x0, [], Returned (Some master)).
Proof.
  intros Hd Hne Hr x0.
  destruct (tick_reconcile env0 fuel0 current0 master d0 Hd Hne)
    as (Hs & _ & Hx). cbv zeta in *. fold x0 in Hs, Hx.
  rewrite Hr in Hx. repeat split; try done.
  intros inputs. apply main_loop_idle.
Qed.

Lemma main_loop_never_records inputs current master d c' :
  (∀ fuel d', result_of (reconcile fuel master d') ≠ Returned true) →
  current ≠ Some master →
  result_of (loop inputs current d) = Returned c' →
  c' ≠ Some master.
Proof.
  intros Hnever. revert current d.
  induction inputs as [|[env fuel] rest IH]; intros current d Hne Hr.
  - simpl in Hr. unfold ret, result_of in Hr. simpl in Hr. by injection Hr as <-.
  - simpl in Hr.
    destruct (bind_cases (step env fuel current) (loop rest) d)
      as [(c1 & Ht & _ & _ & Hb)|[(_ & _ & _ & Hb)|(_ & _ & _ & Hb)]];
      rewrite Hb in Hr; [|done..].
    apply (IH c1 (state_of (step env fuel current d))); [|done].
    destruct (tick_result env fuel current d c1 Ht)
      as [->|(m & _ & _ & -> & Hu)]; [done|].
    intros [= ->]. by apply (Hnever fuel d).
Qed.

(** C9.  For a node whose list of ports is empty, a reconciliation posts no
    add and never returns [True]; it returns [False] whenever its listing
    returns and its removes are answered.  A pass that detects such a node
    therefore leaves the recorded master as it was, and as the loop starts
    with no recorded master, the node is never recorded. *)
Theorem empty_ports_never_recorded (master : node) :
  ports master = [] →
  (∀ fuel d,
      let u := reconcile fuel master d in
      Forall (λ e, is_add e = false) (trace_of u)
      ∧ result_of u ≠ Returned true
      ∧ (∀ current,
           result_of (get_port_mappings post fuel d) = Returned current →
           Forall (λ e, e.2 ≠ NoReply) (trace_of u) →
           result_of u = Returned false))
  ∧ (∀ env fuel current d,
       detect env = Some master →
       result_of (step env fuel current d) = Returned current
       ∨ result_of (step env fuel current d) = Unfinished)
  ∧ (∀ inputs d c',
       result_of (loop inputs None d) = Returned c' → c' ≠ Some master).
Proof.
  intros Hp.
  assert (∀ fuel d, result_of (reconcile fuel master d) ≠ Returned true)
    as Hnever.
  { intros fuel d.
    by destruct (update_for_master_no_ports post FORWARDING_PORTS fuel master d Hp)
      as (_ & H & _). }
  repeat split.
  - by destruct (update_for_master_no_ports post FORWARDING_PORTS fuel master d Hp)
      as (H & _).
  - apply Hnever.
  - intros current Hg Hall.
    destruct (update_for_master_no_ports post FORWARDING_PORTS fuel master d Hp)
      as (_ & _ & H). apply H; [|done]. rewrite Hg. by eexists.
  - intros env fuel current d Hd.
    destruct (decide (Some master = current)) as [Heq|Hn].
    + left. rewrite tick_idle; [done|]. right. by rewrite Hd.
    + destruct (tick_reconcile env fuel current master d Hd Hn)
        as (_ & _ & Hx). cbv zeta in Hx. rewrite Hx.
      specialize (Hnever fuel d).
      destruct (result_of (reconcile fuel master d)) as [[|]| |]; auto.
      done.
  - intros inputs d c'. by apply main_loop_never_records.
Qed.

End Controller.

(** ** The script against the router *)

Section Router.

Import Fritz.

Implicit Types (d : state) (t : list entry) (e : entry).

(** *** Reading a rendered entry back *)

Lemma str_eqb_empty (z : Z) : String.eqb (PyStr.str z) "" = false.
Proof. apply String.eqb_neq, str_nonempty. Qed.

Lemma proto_str_eqb_empty (pr : protocol) : String.eqb (proto_str pr) "" = false.
Proof. by destruct pr. Qed.

Lemma parse_render_port e (idx : nat) :
  parse_mapping (render e) idx !! "ExternalPort"
  = Some (PStr (PyStr.str (e_port e))).
Proof.
  unfold parse_mapping, render, add_element. cbn.
  rewrite !str_eqb_empty, !proto_str_eqb_empty. cbn.
  destruct (String.eqb (e_client e) ""), (String.eqb (e_desc e) ""); cbn;
    by simplify_map_eq.
Qed.

Lemma parse_render_proto e (idx : nat) :
  parse_mapping (render e) idx !! "Protocol"
  = Some (PStr (proto_str (e_proto e))).
Proof.
  unfold parse_mapping, render, add_element. cbn.
  rewrite !str_eqb_empty, !proto_str_eqb_empty. cbn.
  destruct (String.eqb (e_client e) ""), (String.eqb (e_desc e) ""); cbn;
    by simplify_map_eq.
Qed.

(** A configured rule matches a listed mapping exactly when the entry has
    the key of the rule. *)
Lemma matches_render (cfg : rule) e (idx : nat) :
  matches cfg (parse_mapping (render e) idx)
  = has_key (external cfg) (proto cfg) e.
Proof.
  unfold matches, has_key. rewrite parse_render_port, parse_render_proto.
  f_equal.
  - destruct (Z.eqb_spec (e_port e) (external cfg)) as [->|Hne].
    + by apply bool_decide_eq_true_2.
    + apply bool_decide_eq_false_2. intros [= H%str_inj]. done.
  - apply bool_decide_ext. split.
    + intros [= H%proto_str_inj]. done.
    + by intros ->.
Qed.

(** *** The listing of the whole table *)

Lemma router_answers_listing t (fs : list bool) (rest : list entry) :
  ∀ idx : nat,
    drop idx t = rest →
    answers_listing post (State t fs) idx (map render rest) (State t fs)
      (fault "713").
Proof.
  induction rest as [|e rest IH]; intros idx Hdrop; simpl.
  - assert (t !! idx = None) as ->; [|done].
    apply lookup_ge_None. apply drop_nil_inv in Hdrop. lia.
  - assert (t !! idx = Some e) as He.
    { rewrite <- (Nat.add_0_r idx), <- lookup_drop, Hdrop. done. }
    rewrite He. exists (State t fs). split; [done|].
    apply IH. rewrite (drop_S _ _ _ He) in Hdrop. by injection Hdrop.
Qed.

Lemma router_listing d (fuel : nat) :
  (length (table d) < fuel)%nat →
  get_port_mappings post fuel d
  = (d, listing_events 0 (map render (table d)) (fault "713"),
     Returned (listed_mappings 0 (map render (table d)))).
Proof.
  intros Hf. destruct d as [t fs]. unfold get_port_mappings.
  apply (get_port_mappings_from_listing post (map render t)
           (State t fs) 0%nat [] (State t fs) (fault "713") fuel).
  - by apply router_answers_listing.
  - done.
  - by rewrite length_map.
Qed.

Lemma listed_mappings_elem_of t (e : entry) :
  e ∈ t →
  ∃ idx : nat, parse_mapping (render e) idx
               ∈ listed_mappings 0 (map render t).
Proof.
  intros (i & Hi)%list_elem_of_lookup_1. exists i.
  unfold listed_mappings. apply list_elem_of_lookup_2 with i.
  rewrite list_lookup_imap, list_lookup_fmap, Hi. done.
Qed.

Lemma elem_of_listed_mappings t (m : gmap string pyval) :
  m ∈ listed_mappings 0 (map render t) →
  ∃ (idx : nat) e, e ∈ t ∧ m = parse_mapping (render e) idx.
Proof.
  intros (i & Hi)%list_elem_of_lookup_1. unfold listed_mappings in Hi.
  rewrite list_lookup_imap, list_lookup_fmap in Hi.
  destruct (t !! i) as [e|] eqn:He; [|done].
  simpl in Hi. injection Hi as <-. exists i, e. split; [|done].
  by apply list_elem_of_lookup_2 with i.
Qed.

(** *** The table follows the trace *)

Lemma post_replay d (q : soap_request) :
  table (post d q).1
  = if succeeded (post d q).2 then apply q (table d) else table d.
Proof.
  destruct d as [t fs], q as [idx|port pr|port pr ip cl ds]; simpl.
  - by destruct (t !! idx).
  - destruct fs as [|[] fs]; simpl; try done;
      by destruct (existsb (has_key port pr) t).
  - by destruct fs as [|[] fs].
Qed.

Lemma post_replies d (q : soap_request) : (post d q).2 ≠ NoReply.
Proof.
  destruct d as [t fs], q as [idx|port pr|port pr ip cl ds]; simpl.
  - by destruct (t !! idx).
  - destruct fs as [|[] fs]; simpl; try done;
      by destruct (existsb (has_key port pr) t).
  - by destruct fs as [|[] fs].
Qed.

Lemma replay_app (t1 t2 : list event) t :
  replay (t1 ++ t2) t = replay t2 (replay t1 t).
Proof. apply fold_left_app. Qed.

(** The router answers every request. *)
Lemma issue_router (reqs : list soap_request) d :
  ∃ d' tr,
    issue post reqs d = (d', tr, Returned (map ev_ok tr))
    ∧ map fst tr = reqs
    ∧ table d' = replay tr (table d).
Proof.
  revert d. induction reqs as [|q qs IH]; intros d.
  { exists d, []. done. }
  simpl issue. rewrite bind_soap.
  pose proof (post_replay d q) as Hp. pose proof (post_replies d q) as Hr.
  destruct (post d q) as [d1 [|r]]; [done|]. simpl in *.
  destruct (IH d1) as (d2 & t2 & Hi & Hm & Ht).
  exists d2, ((q, Reply r) :: t2). unfold bind, ret. rewrite Hi. simpl.
  rewrite app_nil_r, Hm, Ht. unfold replay, ev_ok. simpl. rewrite Hp.
  repeat split. by destruct (status_code r =? 200).
Qed.

(** Requests that were all carried out. *)
Lemma replay_all_ok (tr : list event) t :
  Forall (λ ev, ev_ok ev = true) tr →
  replay tr t = fold_left (λ t q, apply q t) (map fst tr) t.
Proof.
  revert t. induction tr as [|ev tr IH]; intros t Hall; [done|].
  apply Forall_cons in Hall as [He Hall]. simpl.
  unfold replay in *. simpl. rewrite He. by apply IH.
Qed.


(** A run against the router returns once the fuel exceeds the length of
    the table; it has listed the table, posted every remove and every add,
    and the table has followed the answers. *)
Lemma router_run (rules : list rule) (fuel : nat) (master : node) d :
  (length (table d) < fuel)%nat →
  let x := update_for_master post rules fuel master d in
  ∃ td ta,
    trace_of x
    = listing_events 0 (map render (table d)) (fault "713") ++ td ++ ta
    ∧ map fst td
      = delete_requests rules (listed_mappings 0 (map render (table d)))
    ∧ map fst ta = add_requests rules master
    ∧ result_of x = Returned (existsb ev_ok ta)
    ∧ table (state_of x) = replay ta (replay td (table d)).
Proof.
  intros Hf x.
  destruct (issue_router
              (delete_requests rules (listed_mappings 0 (map render (table d)))) d)
    as (d2 & td & Hd & Hdm & Hdt).
  destruct (issue_router (add_requests rules master) d2)
    as (d3 & ta & Ha & Ham & Hat).
  assert (x = (d3, listing_events 0 (map render (table d)) (fault "713")
                   ++ td ++ ta,
               Returned (existsb id (map ev_ok ta)))) as ->.
  { subst x. rewrite update_for_master_issue. unfold bind, ret.
    rewrite (router_listing d fuel Hf), Hd, Ha. by rewrite app_nil_r. }
  exists td, ta. unfold trace_of, result_of, state_of. simpl.
  rewrite Hat, Hdt. repeat split; try done.
  f_equal. clear. induction ta as [|ev ta IH]; [done|]. simpl. by rewrite IH.
Qed.

(** *** Filtering a table by keys *)

Lemma filter_all {A} (f : A → bool) (l : list A) :
  (∀ x, In x l → f x = true) → List.filter f l = l.
Proof.
  induction l as [|x l IH]; intros H; [done|]. simpl.
  rewrite (H x) by (by left). f_equal. apply IH. intros y Hy. apply H. by right.
Qed.

Lemma filter_none {A} (f : A → bool) (l : list A) :
  (∀ x, In x l → f x = false) → List.filter f l = [].
Proof.
  induction l as [|x l IH]; intros H; [done|]. simpl.
  rewrite (H x) by (by left). apply IH. intros y Hy. apply H. by right.
Qed.

Lemma filter_filter {A} (f g : A → bool) (l : list A) :
  List.filter f (List.filter g l) = List.filter (λ x, g x && f x) l.
Proof.
  induction l as [|x l IH]; [done|]. simpl.
  destruct (g x); simpl; [|done]. destruct (f x); by rewrite IH.
Qed.

Lemma has_key_spec (port : Z) (pr : protocol) e :
  has_key port pr e = true ↔ e_port e = port ∧ e_proto e = pr.
Proof.
  unfold has_key. split.
  - intros [H1%Z.eqb_eq H2%bool_decide_eq_true]%andb_true_iff. done.
  - intros [<- <-]. by rewrite Z.eqb_refl, bool_decide_eq_true_2.
Qed.

Lemma has_key_other (p1 p2 : Z) (pr1 pr2 : protocol) e :
  has_key p1 pr1 e = true → (p1, pr1) ≠ (p2, pr2) → has_key p2 pr2 e = false.
Proof.
  intros [<- <-]%has_key_spec Hne. apply not_true_is_false.
  intros [<- <-]%has_key_spec. done.
Qed.

Lemma carry_out_deletes (reqs : list soap_request) t :
  (∀ q, In q reqs → ∃ port pr, q = DeletePortMapping port pr) →
  carry_out reqs t = List.filter (λ e, negb (named_by reqs e)) t.
Proof.
  revert t. induction reqs as [|q reqs IH]; intros t Hall.
  { simpl. symmetry. by apply filter_all. }
  destruct (Hall q) as (port & pr & ->); [by left|].
  unfold carry_out in *. simpl. rewrite IH by (intros; apply Hall; by right).
  unfold without. rewrite filter_filter. apply List.filter_ext.
  intros e. unfold named_by. simpl. by destruct (has_key port pr e).
Qed.

Lemma carry_out_adds (reqs : list soap_request) t :
  (∀ q, In q reqs → ∃ port pr ip cl ds, q = AddPortMapping port pr ip cl ds) →
  carry_out reqs t
  = List.filter (λ e, negb (named_by reqs e)) t ++ carry_out reqs [].
Proof.
  revert t. induction reqs as [|q reqs IH]; intros t Hall.
  { simpl. rewrite app_nil_r. symmetry. by apply filter_all. }
  destruct (Hall q) as (port & pr & ip & cl & ds & ->); [by left|].
  assert (∀ q, In q reqs →
               ∃ port pr ip cl ds, q = AddPortMapping port pr ip cl ds) as Hall'
    by (intros; apply Hall; by right).
  unfold carry_out in *. simpl.
  rewrite (IH (without port pr t ++ _) Hall'), (IH [_] Hall').
  rewrite List.filter_app, <- app_assoc. f_equal.
  unfold without. rewrite filter_filter. apply List.filter_ext.
  intros e. unfold named_by. simpl. by destruct (has_key port pr e).
Qed.

Lemma carry_out_elem (reqs : list soap_request) t e :
  In e (carry_out reqs t) →
  In e t
  ∨ In (AddPortMapping (e_port e) (e_proto e) (e_internal e) (e_client e)
          (e_desc e)) reqs.
Proof.
  revert t. induction reqs as [|q reqs IH]; intros t Hin; [by left|].
  unfold carry_out in *. simpl in Hin.
  destruct (IH _ Hin) as [Ht|Hq]; [|right; by right].
  destruct q as [idx|port pr|port pr ip cl ds]; simpl in Ht.
  - by left.
  - left. unfold without in Ht. by apply List.filter_In in Ht as [? _].
  - apply in_app_or in Ht as [Ht|[<-|[]]].
    + left. unfold without in Ht. by apply List.filter_In in Ht as [? _].
    + right. by left.
Qed.

Lemma lookup_key_carry_out_adds (reqs : list soap_request) t
    (port : Z) (pr : protocol) :
  (∀ q, In q reqs → ∃ port pr ip cl ds, q = AddPortMapping port pr ip cl ds) →
  (∃ ip cl ds, In (AddPortMapping port pr ip cl ds) reqs) →
  ∃ ip cl ds,
    In (AddPortMapping port pr ip cl ds) reqs
    ∧ lookup_key port pr (carry_out reqs t) = [Entry port pr ip cl ds].
Proof.
  induction reqs as [|a reqs IH] using rev_ind; intros Hall (ip & cl & ds & Hin);
    [done|].
  destruct (Hall a) as (pa & pra & ia & ca & da & ->);
    [apply in_or_app; right; by left|].
  unfold carry_out. rewrite fold_left_app. simpl.
  fold (carry_out reqs t). unfold lookup_key, without.
  rewrite List.filter_app, filter_filter. simpl.
  destruct (has_key port pr (Entry pa pra ia ca da)) eqn:Hk.
  - apply has_key_spec in Hk as [Hp Hpr]. simpl in Hp, Hpr. subst pa pra.
    exists ia, ca, da. split; [apply in_or_app; right; by left|].
    rewrite filter_none; [done|]. intros e _. by destruct (has_key port pr e).
  - assert ((port, pr) ≠ (pa, pra)) as Hne.
    { intros [= -> ->]. unfold has_key in Hk. simpl in Hk.
      by rewrite Z.eqb_refl, bool_decide_eq_true_2 in Hk. }
    destruct IH as (ip' & cl' & ds' & Hin' & Hl).
    { intros q Hq. apply Hall, in_or_app. by left. }
    { apply in_app_or in Hin as [Hin|[Hin|[]]]; [by exists ip, cl, ds|].
      by injection Hin as -> -> _ _ _. }
    exists ip', cl', ds'. split; [apply in_or_app; by left|].
    rewrite app_nil_r. unfold lookup_key in Hl. rewrite <- Hl.
    apply List.filter_ext. intros e.
    destruct (has_key port pr e) eqn:He; [|by rewrite andb_false_r].
    by rewrite (has_key_other _ _ _ _ _ He Hne).
Qed.

(** *** The table after a run in which every remove and add succeeded *)

Lemma add_requests_inv (rules : list rule) (master : node) (q : soap_request) :
  In q (add_requests rules master) →
  ∃ cfg, In cfg rules ∧ external cfg ∈ ports master
         ∧ q = add_request master cfg.
Proof.
  unfold add_requests. rewrite in_flat_map. intros (cfg & Hc & Hq).
  case_bool_decide; [|done]. destruct Hq as [<-|[]]. by exists cfg.
Qed.

Lemma delete_requests_inv (rules : list rule)
    (current : list (gmap string pyval)) (q : soap_request) :
  In q (delete_requests rules current) →
  ∃ cfg m, In cfg rules ∧ In m current ∧ matches cfg m = true
           ∧ q = DeletePortMapping (external cfg) (proto cfg).
Proof.
  unfold delete_requests. rewrite in_flat_map. intros (cfg & Hc & Hq).
  apply in_flat_map in Hq as (m & Hm & Hq).
  destruct (matches cfg m) eqn:Hmatch; [|done].
  destruct Hq as [<-|[]]. by exists cfg, m.
Qed.

(** Every entry of the table under the key of a configured rule is named
    by a remove of the run. *)
Lemma configured_key_deleted (rules : list rule) t (cfg : rule) e :
  In cfg rules → In e t →
  has_key (external cfg) (proto cfg) e = true →
  named_by (delete_requests rules (listed_mappings 0 (map render t))) e = true.
Proof.
  intros Hc He Hk. unfold named_by. apply existsb_exists.
  exists (DeletePortMapping (external cfg) (proto cfg)). split; [|done].
  apply list_elem_of_In in Hc, He.
  destruct (listed_mappings_elem_of t e He) as (idx & Hm).
  apply list_elem_of_In.
  apply (delete_requests_complete rules _ cfg _ Hc Hm).
  by rewrite matches_render.
Qed.

(** A remove of a run names the key of a configured rule. *)
Lemma deleted_key_configured (rules : list rule)
    (current : list (gmap string pyval)) e :
  named_by (delete_requests rules current) e = true →
  ∃ cfg, In cfg rules ∧ has_key (external cfg) (proto cfg) e = true.
Proof.
  unfold named_by. rewrite existsb_exists. intros (q & Hq & Hk).
  apply delete_requests_inv in Hq as (cfg & m & Hc & _ & _ & ->).
  by exists cfg.
Qed.

Lemma deletes_only (rules : list rule) (current : list (gmap string pyval)) :
  ∀ q, In q (delete_requests rules current) →
       ∃ port pr, q = DeletePortMapping port pr.
Proof. intros q (cfg & m & _ & _ & _ & ->)%delete_requests_inv. eauto. Qed.

Lemma adds_only (rules : list rule) (master : node) :
  ∀ q, In q (add_requests rules master) →
       ∃ port pr ip cl ds, q = AddPortMapping port pr ip cl ds.
Proof.
  intros q (cfg & _ & _ & ->)%add_requests_inv. unfold add_request. eauto 6.
Qed.

Lemma all_ok_block (tr : list event) (reqs : list soap_request) :
  map fst tr = reqs →
  (∀ q, In q reqs → ∀ h, is_get (q, h) = false) →
  Forall (λ ev, is_get ev = false → ev_ok ev = true) tr →
  Forall (λ ev, ev_ok ev = true) tr.
Proof.
  intros Hm Hreqs Hall. apply Forall_forall. intros [q h] Hin.
  apply (proj1 (Forall_forall _ _) Hall (q, h) Hin), Hreqs.
  rewrite <- Hm. apply list_elem_of_In, list_elem_of_fmap. by exists (q, h).
Qed.

Lemma router_run_ok (rules : list rule) (fuel : nat) (master : node) d :
  (length (table d) < fuel)%nat →
  let x := update_for_master post rules fuel master d in
  Forall (λ ev, is_get ev = false → ev_ok ev = true) (trace_of x) →
  (∃ b, result_of x = Returned b)
  ∧ table (state_of x) = settled rules master (table d).
Proof.
  intros Hf x Hall.
  destruct (router_run rules fuel master d Hf)
    as (td & ta & Ht & Hd & Ha & Hr & Hs). fold x in Ht, Hr, Hs.
  split; [by eexists|].
  rewrite Ht in Hall. apply Forall_app in Hall as [_ Hall].
  apply Forall_app in Hall as [Hdok Haok].
  apply (all_ok_block td _ Hd) in Hdok;
    [|by intros q (p & pr & ->)%deletes_only].
  apply (all_ok_block ta _ Ha) in Haok;
    [|by intros q (p & pr & ip & cl & ds & ->)%adds_only].
  rewrite Hs, (replay_all_ok td _ Hdok), (replay_all_ok ta _ Haok), Hd, Ha.
  fold (carry_out (delete_requests rules (listed_mappings 0 (map render (table d))))
          (table d)).
  fold (carry_out (add_requests rules master)).
  rewrite (carry_out_deletes _ _ (deletes_only _ _)).
  by rewrite (carry_out_adds _ _ (adds_only _ _)).
Qed.

Lemma settled_assigned (rules : list rule) (master : node) t (cfg : rule) :
  In cfg rules → external cfg ∈ ports master →
  ∃ e, lookup_key (external cfg) (proto cfg) (settled rules master t) = [e]
       ∧ e_client e = wan_ip master.
Proof.
  intros Hc Hp. unfold settled.
  rewrite <- (carry_out_adds _ _ (adds_only rules master)).
  destruct (lookup_key_carry_out_adds (add_requests rules master)
              (List.filter
                 (λ e, negb (named_by
                    (delete_requests rules (listed_mappings 0 (map render t))) e)) t)
              (external cfg) (proto cfg) (adds_only rules master))
    as (ip & cl & ds & Hin & Hl).
  { exists (internal cfg), (wan_ip master),
      (description cfg +:+ " (" +:+ hostname master +:+ ")").
    apply list_elem_of_In.
    apply (add_requests_complete rules master cfg);
      [by apply list_elem_of_In|done]. }
  rewrite Hl. eexists. split; [done|]. simpl.
  apply add_requests_inv in Hin as (cfg' & _ & _ & Heq).
  unfold add_request in Heq. by injection Heq as _ _ _ -> _.
Qed.

Lemma settled_unassigned (rules : list rule) (master : node) t (cfg : rule) :
  In cfg rules → external cfg ∉ ports master →
  lookup_key (external cfg) (proto cfg) (settled rules master t) = [].
Proof.
  intros Hc Hp. unfold settled, lookup_key. rewrite List.filter_app.
  rewrite !filter_filter.
  rewrite (filter_none _ t), (filter_none _ (carry_out _ [])); [done|..].
  - intros e He. apply not_true_is_false. intros Hk.
    destruct (carry_out_elem _ _ _ He) as [[]|Hq].
    apply add_requests_inv in Hq as (cfg' & _ & Hp' & Heq).
    unfold add_request in Heq. injection Heq as Hport _ _ _ _.
    apply has_key_spec in Hk as [Hk _]. apply Hp.
    rewrite <- Hk, Hport. exact Hp'.
  - intros e He.
    destruct (has_key (external cfg) (proto cfg) e) eqn:Hk;
      [|by rewrite !andb_false_r].
    by rewrite (configured_key_deleted rules t cfg e Hc He Hk).
Qed.

(** Against a router that lists its whole table, a reconciliation
    whose fuel exceeds the length of the table and whose removes and adds
    were all answered with status 200 returns, and leaves a table in which
    every configured rule whose external port is among the ports of the new
    master has exactly one mapping under its (external port, protocol), with
    the WAN address of the master as its client, and every other configured
    rule has no mapping under its key. *)
Theorem reconciliation_installs_master_rules
    (rules : list rule) (master : node) d (fuel : nat) :
  (length (table d) < fuel)%nat →
  let x := update_for_master post rules fuel master d in
  Forall (λ ev, is_get ev = false → ev_ok ev = true) (trace_of x) →
  (∃ b, result_of x = Returned b)
  ∧ (∀ cfg, cfg ∈ rules → external cfg ∈ ports master →
            ∃ e, lookup_key (external cfg) (proto cfg) (table (state_of x))
                 = [e]
                 ∧ e_client e = wan_ip master)
  ∧ (∀ cfg, cfg ∈ rules → external cfg ∉ ports master →
            lookup_key (external cfg) (proto cfg) (table (state_of x)) = []).
Proof.
  intros Hf x Hall.
  destruct (router_run_ok rules fuel master d Hf Hall) as [Hr Ht].
  fold x in Hr, Ht. rewrite Ht. repeat split; [done|..].
  - intros cfg Hc%list_elem_of_In Hp. by apply settled_assigned.
  - intros cfg Hc%list_elem_of_In Hp. by apply settled_unassigned.
Qed.

Lemma settled_settled (rules : list rule) (master : node) t :
  settled rules master (settled rules master t) = settled rules master t.
Proof.
  set (adds := add_requests rules master).
  set (U := carry_out adds []).
  set (X := List.filter (λ e, negb (named_by adds e))
              (List.filter
                 (λ e, negb (named_by
                    (delete_requests rules (listed_mappings 0 (map render t))) e))
                 t)).
  assert (settled rules master t = X ++ U) as Hs by done.
  rewrite Hs. unfold settled at 1. fold adds U. f_equal.
  rewrite !List.filter_app.
  assert (∀ e, In e U → named_by adds e = true) as HU.
  { intros e He. destruct (carry_out_elem _ _ _ He) as [[]|Hq].
    unfold named_by. apply existsb_exists. eexists. split; [exact Hq|].
    simpl. by apply has_key_spec. }
  assert (∀ e, In e X → named_by adds e = false) as HXA.
  { intros e [_ He]%List.filter_In. by apply negb_true_iff. }
  assert (∀ e, In e X →
               named_by (delete_requests rules
                           (listed_mappings 0 (map render (X ++ U)))) e = false)
    as HXD.
  { intros e He. apply not_true_is_false.
    intros (cfg & Hc & Hk)%deleted_key_configured.
    apply List.filter_In in He as [He _].
    apply List.filter_In in He as [He Hn].
    by rewrite (configured_key_deleted rules t cfg e Hc He Hk) in Hn. }
  rewrite (filter_all _ X), (filter_all _ X).
  - rewrite (filter_none _ (List.filter _ U)); [by rewrite app_nil_r|].
    intros e [He _]%List.filter_In. by rewrite (HU e He).
  - intros e He. by rewrite (HXA e He).
  - intros e He. by rewrite (HXD e He).
Qed.

(** C2.  Against the router, two reconciliations in a row for the same
    master, each with fuel above the length of the table it finds and with
    every remove and add answered with status 200, leave the same table as
    the first of them alone. *)
Theorem reconciliation_idempotent
    (rules : list rule) (master : node) d (fuel1 fuel2 : nat) :
  let x1 := update_for_master post rules fuel1 master d in
  let x2 := update_for_master post rules fuel2 master (state_of x1) in
  (length (table d) < fuel1)%nat →
  (length (table (state_of x1)) < fuel2)%nat →
  Forall (λ ev, is_get ev = false → ev_ok ev = true) (trace_of x1) →
  Forall (λ ev, is_get ev = false → ev_ok ev = true) (trace_of x2) →
  (∃ b1 b2, result_of x1 = Returned b1 ∧ result_of x2 = Returned b2)
  ∧ table (state_of x2) = table (state_of x1).
Proof.
  intros x1 x2 Hf1 Hf2 Hall1 Hall2.
  destruct (router_run_ok rules fuel1 master d Hf1 Hall1) as [[b1 Hr1] Ht1].
  destruct (router_run_ok rules fuel2 master (state_of x1) Hf2 Hall2)
    as [[b2 Hr2] Ht2].
  fold x1 in Hr1, Ht1. fold x2 in Hr2, Ht2. split; [by exists b1, b2|].
  by rewrite Ht2, Ht1, settled_settled.
Qed.

End Router.

(** ** The theorems on the scenarios *)

Lemma get_port_mappings_terminates_witness :
  let d := Fritz.State Scenario.routerA [] in
  let ess := map Fritz.render Scenario.routerA in
  answers_listing Fritz.post d 0 ess d (Fritz.fault "713")
  ∧ ends_listing (Fritz.fault "713") = true
  ∧ (length ess < 3)%nat
  ∧ ∃ tr,
      get_port_mappings Fritz.post 3 d
      = (d, tr, Returned (imap (λ i es, parse_mapping es i) ess))
      ∧ map fst tr = map GetGenericPortMappingEntry (seq 0 (S (length ess)))
      ∧ map snd tr
        = map (λ es, Reply (Response 200 (Some es))) ess ++ [Fritz.fault "713"].
Proof.
  cbv zeta.
  assert (answers_listing Fritz.post (Fritz.State Scenario.routerA []) 0
            (map Fritz.render Scenario.routerA)
            (Fritz.State Scenario.routerA []) (Fritz.fault "713")) as Ha.
  { simpl. eexists. split; [reflexivity|]. eexists. split; reflexivity. }
  assert (length (map Fritz.render Scenario.routerA) < 3)%nat as Hf
    by (simpl; lia).
  repeat split; [exact Ha|exact Hf|].
  exact (get_port_mappings_terminates Fritz.post _ _ _ _ 3%nat Ha eq_refl Hf).
Defined.

Lemma reconciliation_installs_master_rules_witness :
  let d := Fritz.State Scenario.routerA [] in
  let x := update_for_master Fritz.post Scenario.rules 3 Scenario.nodeB d in
  (length (Fritz.table d) < 3)%nat
  ∧ Forall (λ ev, is_get ev = false → ev_ok ev = true) (trace_of x)
  ∧ (∃ b, result_of x = Returned b)
  ∧ (∀ cfg, cfg ∈ Scenario.rules → external cfg ∈ ports Scenario.nodeB →
        ∃ e, Fritz.lookup_key (external cfg) (proto cfg)
               (Fritz.table (state_of x)) = [e]
             ∧ Fritz.e_client e = wan_ip Scenario.nodeB)
  ∧ (∀ cfg, cfg ∈ Scenario.rules → external cfg ∉ ports Scenario.nodeB →
        Fritz.lookup_key (external cfg) (proto cfg)
          (Fritz.table (state_of x)) = []).
Proof.
  cbv zeta.
  assert (length (Fritz.table (Fritz.State Scenario.routerA [])) < 3)%nat as Hf
    by (simpl; lia).
  assert (Forall (λ ev, is_get ev = false → ev_ok ev = true)
            (trace_of (update_for_master Fritz.post Scenario.rules 3
                         Scenario.nodeB (Fritz.State Scenario.routerA []))))
    as Hall by compute_done.
  split; [exact Hf|]. split; [exact Hall|].
  exact (reconciliation_installs_master_rules Scenario.rules Scenario.nodeB
           (Fritz.State Scenario.routerA []) 3%nat Hf Hall).
Defined.

Lemma reconciliation_idempotent_witness :
  let d := Fritz.State Scenario.routerA [] in
  let x1 := update_for_master Fritz.post Scenario.rules 3 Scenario.nodeB d in
  let x2 := update_for_master Fritz.post Scenario.rules 3 Scenario.nodeB
              (state_of x1) in
  (length (Fritz.table d) < 3)%nat
  ∧ (length (Fritz.table (state_of x1)) < 3)%nat
  ∧ Forall (λ ev, is_get ev = false → ev_ok ev = true) (trace_of x1)
  ∧ Forall (λ ev, is_get ev = false → ev_ok ev = true) (trace_of x2)
  ∧ (∃ b1 b2, result_of x1 = Returned b1 ∧ result_of x2 = Returned b2)
  ∧ Fritz.table (state_of x2) = Fritz.table (state_of x1).
Proof.
  cbv zeta.
  assert (length (Fritz.table (Fritz.State Scenario.routerA [])) < 3)%nat as Hf1
    by (simpl; lia).
  assert (length (Fritz.table
            (state_of (update_for_master Fritz.post Scenario.rules 3
                         Scenario.nodeB (Fritz.State Scenario.routerA [])))) < 3)%nat
    as Hf2 by (vm_compute; lia).
  assert (Forall (λ ev, is_get ev = false → ev_ok ev = true)
            (trace_of (update_for_master Fritz.post Scenario.rules 3
                         Scenario.nodeB (Fritz.State Scenario.routerA []))))
    as Hall1 by compute_done.
  assert (Forall (λ ev, is_get ev = false → ev_ok ev = true)
            (trace_of (update_for_master Fritz.post Scenario.rules 3 Scenario.nodeB
               (state_of (update_for_master Fritz.post Scenario.rules 3
                            Scenario.nodeB (Fritz.State Scenario.routerA []))))))
    as Hall2 by compute_done.
  split; [exact Hf1|]. split; [exact Hf2|].
  split; [exact Hall1|]. split; [exact Hall2|].
  exact (reconciliation_idempotent Scenario.rules Scenario.nodeB
           (Fritz.State Scenario.routerA []) 3%nat 3%nat Hf1 Hf2 Hall1 Hall2).
Defined.

(** The partial failure of the specification: of the four adds two are
    refused; the run still posts four removes and four adds and returns
    [True], and the table holds the two mappings that were added. *)
Example partial_failure_run :
  let x := update_for_master Fritz.post Scenario.four_rules 5 Scenario.nodeC
             Scenario.stale_router in
  result_of x = Returned true
  ∧ map (λ ev, (ev.1, ev_ok ev)) (List.filter (λ ev, negb (is_get ev)) (trace_of x))
    = [ (DeletePortMapping 443 TCP, true); (DeletePortMapping 8443 TCP, true);
        (DeletePortMapping 80 TCP, true); (DeletePortMapping 51820 UDP, true);
        (AddPortMapping 443 TCP 443 "192.168.178.4" "HTTPS-Server (PC-192-178-4)", true);
        (AddPortMapping 8443 TCP 8443 "192.168.178.4" "HTTPS-Alt (PC-192-178-4)", false);
        (AddPortMapping 80 TCP 80 "192.168.178.4" "HTTP (PC-192-178-4)", true);
        (AddPortMapping 51820 UDP 51820 "192.168.178.4"
           "Wireguard VPN (PC-192-178-4)", false) ]
  ∧ Fritz.table (state_of x)
    = [ Fritz.Entry 443 TCP 443 "192.168.178.4" "HTTPS-Server (PC-192-178-4)";
        Fritz.Entry 80 TCP 80 "192.168.178.4" "HTTP (PC-192-178-4)" ].
Proof. vm_compute. repeat split. Qed.

Lemma partial_failures_contained_witness :
  let d := Scenario.stale_router in
  let current := listed_mappings 0 (map Fritz.render (Fritz.table d)) in
  let x := update_for_master Fritz.post Scenario.four_rules 5 Scenario.nodeC d in
  result_of (get_port_mappings Fritz.post 5 d) = Returned current
  ∧ Forall (λ e, e.2 ≠ NoReply) (trace_of x)
  ∧ ∃ td ta,
      trace_of x = trace_of (get_port_mappings Fritz.post 5 d) ++ td ++ ta
      ∧ map fst td = delete_requests Scenario.four_rules current
      ∧ map fst ta = add_requests Scenario.four_rules Scenario.nodeC
      ∧ (∀ cfg m, cfg ∈ Scenario.four_rules → m ∈ current →
                  matches cfg m = true →
                  DeletePortMapping (external cfg) (proto cfg) ∈ map fst td)
      ∧ (∀ cfg, cfg ∈ Scenario.four_rules →
                external cfg ∈ ports Scenario.nodeC →
                add_request Scenario.nodeC cfg ∈ map fst ta)
      ∧ ∃ b, result_of x = Returned b
             ∧ (b = true ↔ ∃ e, e ∈ ta ∧ ev_ok e = true).
Proof.
  cbv zeta.
  assert (result_of (get_port_mappings Fritz.post 5 Scenario.stale_router)
          = Returned (listed_mappings 0
                        (map Fritz.render (Fritz.table Scenario.stale_router))))
    as Hg by (by rewrite router_listing by (simpl; lia)).
  assert (Forall (λ e : event, e.2 ≠ NoReply)
            (trace_of (update_for_master Fritz.post Scenario.four_rules 5
                         Scenario.nodeC Scenario.stale_router))) as Hall.
  { vm_compute. repeat (constructor; [discriminate|]). constructor. }
  split; [exact Hg|]. split; [exact Hall|].
  exact (partial_failures_contained Fritz.post Scenario.four_rules 5%nat
           Scenario.nodeC Scenario.stale_router _ Hg Hall).
Defined.

(** The detection on the scenarios. *)
Example detection_prefers_status :
  check_opnsense_master Scenario.nodes Scenario.envB_master
  = (Some Scenario.nodeB,
     [Queried "10.1.1.3"; Queried "10.1.1.4"; Master "10.1.1.4"]).
Proof. reflexivity. Qed.

(** C6, as stated, fails: node A does not answer its status query and node B
    reports the master role, yet the detection returns node A, because A
    answers the ping of the fallback. *)
Lemma first_node_wins_by_ping :
  status Scenario.envA_pings "10.1.1.3" = GetRaised
  ∧ reports_master (status Scenario.envA_pings "10.1.1.4") = true
  ∧ check_opnsense_master Scenario.nodes Scenario.envA_pings
    = (Some Scenario.nodeA,
       [Queried "10.1.1.3"; Pinged "10.1.1.3"; FallbackMaster "10.1.1.3"])
  ∧ Scenario.nodeA ≠ Scenario.nodeB.
Proof. repeat split. discriminate. Qed.

Lemma second_node_detected_witness :
  let env := Scenario.envA_down in
  let r := check_opnsense_master
             [("10.1.1.3", Scenario.nodeA); ("10.1.1.4", Scenario.nodeB)] env in
  query_raises (status env "10.1.1.3") = true
  ∧ ping env "10.1.1.3" ≠ 0
  ∧ reports_master (status env "10.1.1.4") = true
  ∧ r = (Some Scenario.nodeB,
         [Queried "10.1.1.3"; Pinged "10.1.1.3"; Queried "10.1.1.4";
          Master "10.1.1.4"])
  ∧ Pinged "10.1.1.4" ∉ r.2.
Proof.
  cbv zeta.
  assert (ping Scenario.envA_down "10.1.1.3" ≠ 0) as Hping by (simpl; lia).
  split; [reflexivity|]. split; [exact Hping|]. split; [reflexivity|].
  exact (second_node_detected Scenario.envA_down "10.1.1.3" "10.1.1.4"
           Scenario.nodeA Scenario.nodeB eq_refl Hping eq_refl).
Defined.

Lemma non_success_status_is_skipped_witness :
  let env := Scenario.envA_unauthorized in
  let r := check_opnsense_master Scenario.nodes env in
  status env "10.1.1.3" = GetReply 401 None
  ∧ 401 ≠ 200
  ∧ (Master "10.1.1.3" ∉ r.2) ∧ (FallbackMaster "10.1.1.3" ∉ r.2)
  ∧ (Pinged "10.1.1.3" ∉ r.2)
  ∧ (∀ c, r.1 = Some c →
          ∃ ip', ip' ≠ "10.1.1.3" ∧ (ip', c) ∈ Scenario.nodes
                 ∧ (Master ip' ∈ r.2 ∨ FallbackMaster ip' ∈ r.2))
  ∧ (∀ ip', Pinged ip' ∈ r.2 → query_raises (status env ip') = true).
Proof.
  cbv zeta.
  assert (401 ≠ 200) as Hcode by lia.
  split; [reflexivity|]. split; [exact Hcode|].
  exact (non_success_status_is_skipped Scenario.envA_unauthorized Scenario.nodes
           "10.1.1.3" 401 None eq_refl Hcode).
Defined.

(** C5, as stated, fails: node B is detected while node A is recorded, the
    remove of 443/TCP succeeds and the add of 8443/TCP is refused, so the
    reconciliation returns [False] and node A stays recorded -- but the
    table of the router has lost its mapping. *)
Lemma failed_reconciliation_changes_table :
  let d := Fritz.State
             [Fritz.Entry 443 TCP 443 "192.168.178.3" "HTTPS-Server (PC-192-178-3)"]
             [false; true] in
  let x := tick Fritz.post Scenario.rules Scenario.nodes Scenario.envB_master 3
             (Some Scenario.nodeA) d in
  (check_opnsense_master Scenario.nodes Scenario.envB_master).1
  = Some Scenario.nodeB
  ∧ result_of (update_for_master Fritz.post Scenario.rules 3 Scenario.nodeB d)
    = Returned false
  ∧ result_of x = Returned (Some Scenario.nodeA)
  ∧ Fritz.table (state_of x) = []
  ∧ Fritz.table (state_of x) ≠ Fritz.table d.
Proof. vm_compute. repeat split. discriminate. Qed.

Lemma no_retry_while_master_unchanged_witness :
  let d0 := Fritz.State [] [false; true; false; true] in
  let x0 := tick Fritz.post Scenario.four_rules
              [("10.1.1.3", Scenario.nodeA); ("10.1.1.4", Scenario.nodeC)]
              Scenario.envB_master 3 None d0 in
  (check_opnsense_master
     [("10.1.1.3", Scenario.nodeA); ("10.1.1.4", Scenario.nodeC)]
     Scenario.envB_master).1 = Some Scenario.nodeC
  ∧ Some Scenario.nodeC ≠ None
  ∧ result_of (update_for_master Fritz.post Scenario.four_rules 3
                 Scenario.nodeC d0) = Returned true
  ∧ Fritz.table (state_of x0)
    = [ Fritz.Entry 443 TCP 443 "192.168.178.4" "HTTPS-Server (PC-192-178-4)";
        Fritz.Entry 80 TCP 80 "192.168.178.4" "HTTP (PC-192-178-4)" ]
  ∧ result_of x0 = Returned (Some Scenario.nodeC)
  ∧ state_of x0
    = state_of (update_for_master Fritz.post Scenario.four_rules 3
                  Scenario.nodeC d0)
  ∧ ∀ inputs,
      Forall (λ i, (check_opnsense_master
                      [("10.1.1.3", Scenario.nodeA); ("10.1.1.4", Scenario.nodeC)]
                      i.1).1 = Some Scenario.nodeC) inputs →
      main_loop Fritz.post Scenario.four_rules
        [("10.1.1.3", Scenario.nodeA); ("10.1.1.4", Scenario.nodeC)]
        inputs (Some Scenario.nodeC) (state_of x0)
      = (state_of x0, [], Returned (Some Scenario.nodeC)).
Proof.
  cbv zeta.
  assert (Some Scenario.nodeC ≠ None) as Hne by discriminate.
  assert (result_of (update_for_master Fritz.post Scenario.four_rules 3
                       Scenario.nodeC (Fritz.State [] [false; true; false; true]))
          = Returned true) as Hr by (vm_compute; reflexivity).
  split; [reflexivity|]. split; [exact Hne|]. split; [exact Hr|].
  split; [vm_compute; reflexivity|].
  exact (no_retry_while_master_unchanged Fritz.post Scenario.four_rules
           [("10.1.1.3", Scenario.nodeA); ("10.1.1.4", Scenario.nodeC)]
           Scenario.envB_master 3%nat None
           (Fritz.State [] [false; true; false; true]) Scenario.nodeC
           eq_refl Hne Hr).
Defined.

Lemma empty_ports_never_recorded_witness :
  let nodes := [("10.1.1.3", Scenario.nodeA); ("10.1.1.4", Scenario.spare)] in
  let d := Fritz.State Scenario.routerA [] in
  let inputs := [(Scenario.envB_master, 3%nat); (Scenario.envB_master, 3%nat)] in
  let u := update_for_master Fritz.post Scenario.rules 3 Scenario.spare d in
  ports Scenario.spare = []
  ∧ (check_opnsense_master nodes Scenario.envB_master).1 = Some Scenario.spare
  ∧ Forall (λ e, is_add e = false) (trace_of u)
  ∧ result_of u = Returned false
  ∧ result_of (tick Fritz.post Scenario.rules nodes Scenario.envB_master 3
                 (Some Scenario.nodeA) d) = Returned (Some Scenario.nodeA)
  ∧ result_of (main_loop Fritz.post Scenario.rules nodes inputs None d)
    = Returned None
  ∧ None ≠ Some Scenario.spare.
Proof.
  cbv zeta.
  pose proof (empty_ports_never_recorded Fritz.post Scenario.rules
                [("10.1.1.3", Scenario.nodeA); ("10.1.1.4", Scenario.spare)]
                Scenario.spare eq_refl) as (Hrun & Htick & Hloop).
  assert ((check_opnsense_master
             [("10.1.1.3", Scenario.nodeA); ("10.1.1.4", Scenario.spare)]
             Scenario.envB_master).1 = Some Scenario.spare) as Hd
    by reflexivity.
  assert (result_of
            (main_loop Fritz.post Scenario.rules
               [("10.1.1.3", Scenario.nodeA); ("10.1.1.4", Scenario.spare)]
               [(Scenario.envB_master, 3%nat); (Scenario.envB_master, 3%nat)]
               None (Fritz.State Scenario.routerA [])) = Returned None) as Hl
    by (vm_compute; reflexivity).
  destruct (Hrun 3%nat (Fritz.State Scenario.routerA [])) as (Hadds & _ & Hfalse).
  split; [reflexivity|]. split; [exact Hd|]. split; [exact Hadds|].
  split.
  { apply (Hfalse (listed_mappings 0 (map Fritz.render Scenario.routerA))).
    - by rewrite router_listing by (simpl; lia).
    - vm_compute. repeat (constructor; [discriminate|]). constructor. }
  split.
  { destruct (Htick Scenario.envB_master 3%nat (Some Scenario.nodeA)
                (Fritz.State Scenario.routerA []) Hd) as [H|H]; [exact H|].
    vm_compute in H. discriminate H. }
  split; [exact Hl|].
  exact (Hloop _ _ None Hl).
Defined.

(** A node without ports on the router that forwards 443/TCP to node A: the
    mapping is removed, nothing is added, and the run returns [False]. *)
Example update_for_spare :
  let x := update_for_master Fritz.post Scenario.rules 3 Scenario.spare
             (Fritz.State Scenario.routerA []) in
  result_of x = Returned false
  ∧ map fst (trace_of x)
    = [ GetGenericPortMappingEntry 0; GetGenericPortMappingEntry 1;
        GetGenericPortMappingEntry 2; DeletePortMapping 443 TCP ]
  ∧ Fritz.table (state_of x) = [Fritz.Entry 22 TCP 22 "192.168.178.9" "ssh"].
Proof. vm_compute. repeat split. Qed.

(** * Further properties of the script *)

(** ** Strings *)

Section Strings.

Import PyStr.

Lemma has_char_app (c : ascii) (s t : string) :
  has_char c (s +:+ t) = has_char c s || has_char c t.
Proof.
  induction s as [|a s IH]; [done|]. simpl. by destruct (Ascii.eqb a c).
Qed.

(** X4.  [tag.split("}")[-1]] strips a namespace: what follows the last
    closing brace is returned, and the result holds no closing brace. *)
Theorem last_segment_strips_namespace (ns local : string) :
  has_char "}"%char local = false →
  last_segment (ns +:+ String "}" local) = local
  ∧ last_segment local = local
  ∧ ∀ s, has_char "}"%char (last_segment s) = false.
Proof.
  intros Hl. repeat split.
  - induction ns as [|a ns IH]; simpl.
    + by rewrite Hl.
    + rewrite has_char_app. simpl. by rewrite orb_true_r.
  - destruct local as [|a local]; [done|]. simpl in *.
    destruct (Ascii.eqb a "}"); [done|]. by rewrite Hl.
  - intros s. induction s as [|a s IH]; [done|]. simpl.
    destruct (has_char "}" s) eqn:Hs; [done|].
    destruct (Ascii.eqb a "}") eqn:Ha; [done|]. simpl. by rewrite Ha.
Qed.

Lemma prefix_spec (p s : string) :
  String.prefix p s = true ↔ ∃ b, s = p +:+ b.
Proof.
  revert s. induction p as [|a p IH]; intros s.
  - split; [by exists s|by destruct s].
  - destruct s as [|c s]; simpl.
    + split; [done|by intros [b ?]].
    + destruct (Ascii.ascii_dec a c) as [->|Hne].
      * rewrite IH. split; intros [b Hb]; exists b; [by rewrite Hb|].
        by injection Hb.
      * split; [done|]. intros [b Hb]. by injection Hb as <- _.
Qed.

Lemma contains_spec (needle hay : string) :
  contains needle hay = true ↔ ∃ a b, hay = a +:+ needle +:+ b.
Proof.
  split.
  - induction hay as [|c hay IH]; cbn [contains].
    + destruct (String.prefix needle "") eqn:Hp; [|done].
      intros _. apply prefix_spec in Hp as [b Hb]. exists "", b. exact Hb.
    + destruct (String.prefix needle (String c hay)) eqn:Hp.
      * intros _. apply prefix_spec in Hp as [b Hb]. exists "", b. exact Hb.
      * intros (a & b & ->)%IH. by exists (String c a), b.
  - intros (a & b & ->). induction a as [|c a IH].
    + assert (String.prefix needle (needle +:+ b) = true) as Hp
        by (apply prefix_spec; by exists b).
      change ("" +:+ needle +:+ b) with (needle +:+ b).
      destruct (needle +:+ b); cbn [contains]; by rewrite Hp.
    + change (String c a +:+ needle +:+ b) with (String c (a +:+ needle +:+ b)).
      cbn [contains]. rewrite IH.
      by destruct (String.prefix needle (String c (a +:+ needle +:+ b))).
Qed.

(** X5.  An interface reports the master role exactly when its lower-cased
    text has both "carp" and "master" among its substrings. *)
Theorem is_carp_master_substrings (iface : string) :
  is_carp_master iface = true
  ↔ (∃ a b, lower iface = a +:+ "carp" +:+ b)
    ∧ (∃ a b, lower iface = a +:+ "master" +:+ b).
Proof.
  unfold is_carp_master. by rewrite andb_true_iff, !contains_spec.
Qed.

End Strings.

(** ** Reading the listing *)

Section Parsing.

Context {Dev : Type}.
Variable post : Dev → soap_request → Dev * http_result.

Lemma fold_add_element_lookup (elems : list (string * string)) :
  ∀ (m0 : gmap string pyval) (k : string) (v : pyval),
    fold_left add_element elems m0 !! k = Some v →
    m0 !! k = Some v
    ∨ ∃ tag text,
        (tag, text) ∈ elems
        ∧ PyStr.startswith "New" (PyStr.last_segment tag) = true
        ∧ text ≠ ""
        ∧ k = PyStr.replace_New (PyStr.last_segment tag)
        ∧ v = PStr text.
Proof.
  induction elems as [|[tag text] elems IH]; intros m0 k v Hk; [by left|].
  simpl in Hk. destruct (IH _ _ _ Hk) as [H0|(tag' & text' & Hin & Hrest)].
  - unfold add_element in H0. simpl in H0.
    destruct (PyStr.startswith "New" (PyStr.last_segment tag)) eqn:Hs;
      simpl in H0; [|by left].
    destruct (String.eqb_spec text "") as [->|Hne]; simpl in H0; [by left|].
    destruct (decide (PyStr.replace_New (PyStr.last_segment tag) = k))
      as [<-|Hneq].
    + rewrite lookup_insert_eq in H0. injection H0 as <-.
      right. exists tag, text. repeat split; try done. apply list_elem_of_here.
    + rewrite lookup_insert_ne in H0 by done. by left.
  - right. exists tag', text'. split; [by apply list_elem_of_further|done].
Qed.

(** X2.  Every entry of a mapping read from a response is either the index
    under ["Index"], or comes from an element whose local tag starts with
    ["New"] and whose text is not empty: its key is the tag without ["New"]
    and its value the text.  Elements without that prefix or without text
    leave no trace, and no value is the empty string. *)
Theorem parse_mapping_entries
    (elems : list (string * string)) (idx : nat) (k : string) (v : pyval) :
  parse_mapping elems idx !! k = Some v →
  (k = "Index" ∧ v = PInt (Z.of_nat idx))
  ∨ (∃ tag text,
        (tag, text) ∈ elems
        ∧ PyStr.startswith "New" (PyStr.last_segment tag) = true
        ∧ text ≠ ""
        ∧ k = PyStr.replace_New (PyStr.last_segment tag)
        ∧ v = PStr text).
Proof.
  unfold parse_mapping. intros Hk.
  destruct (decide (k = "Index")) as [->|Hne].
  - rewrite lookup_insert_eq in Hk. injection Hk as <-. by left.
  - rewrite lookup_insert_ne in Hk by done.
    apply fold_add_element_lookup in Hk as [Hk|Hk]; [done|by right].
Qed.


(** X19.  An element [<NewK>text</NewK>], whatever its namespace, is read
    back under the key [K]: the mapping has [text] under [K] when [K] holds
    no further ["New"] and is not ["Index"], and the text is not empty. *)
Theorem parse_mapping_reads_element
    (elems : list (string * string)) (ns k text : string) (idx : nat) :
  PyStr.has_char "}"%char k = false →
  PyStr.replace_New k = k →
  k ≠ "Index" →
  text ≠ "" →
  parse_mapping (elems ++ [(ns +:+ String "}" ("New" +:+ k), text)]) idx !! k
  = Some (PStr text).
Proof.
  intros Hb Hk Hi Ht.
  change ("New" +:+ k) with (String "N" (String "e" (String "w" k))).
  assert (PyStr.last_segment
            (ns +:+ String "}" (String "N" (String "e" (String "w" k))))
          = String "N" (String "e" (String "w" k))) as Hl.
  { induction ns as [|a ns IH]; simpl.
    - by rewrite Hb.
    - rewrite has_char_app. simpl. by rewrite orb_true_r. }
  unfold parse_mapping. rewrite lookup_insert_ne by done.
  rewrite fold_left_app. simpl. unfold add_element at 1. simpl.
  rewrite Hl. simpl. rewrite Hk.
  assert (PyStr.startswith "" k = true) as -> by (by destruct k).
  destruct (String.eqb_spec text ""); [done|]. simpl.
  by rewrite lookup_insert_eq.
Qed.

Lemma get_port_mappings_from_index (fuel : nat) :
  ∀ (idx : nat) (ms : list (gmap string pyval)) (d : Dev)
    (ms' : list (gmap string pyval)),
    result_of (get_port_mappings_from post fuel idx ms d) = Returned ms' →
    ∃ new,
      ms' = ms ++ new
      ∧ length (trace_of (get_port_mappings_from post fuel idx ms d))
        = S (length new)
      ∧ ∀ (i : nat) m, new !! i = Some m →
                       m !! "Index" = Some (PInt (Z.of_nat (idx + i))).
Proof.
  induction fuel as [|fuel IH]; intros idx ms d ms' Hr; [done|].
  simpl get_port_mappings_from in *. rewrite bind_soap in *.
  destruct (post d (GetGenericPortMappingEntry idx)) as [d1 [|r]]; [done|].
  simpl in *. destruct (status_code r =? 200).
  - destruct (elements r) as [elems|].
    + specialize (IH (S idx) (ms ++ [parse_mapping elems idx]) d1 ms').
      destruct (get_port_mappings_from post fuel (S idx) _ d1) as [[d2 t2] r2].
      unfold result_of, trace_of in *. simpl in *.
      destruct (IH Hr) as (new & -> & Hl & Hi).
      exists (parse_mapping elems idx :: new). rewrite <- app_assoc.
      repeat split; [simpl; by rewrite Hl|].
      intros [|i] m Hm; simpl in Hm.
      * injection Hm as <-. unfold parse_mapping.
        by rewrite lookup_insert_eq, Nat.add_0_r.
      * rewrite Nat.add_succ_r. by apply Hi.
    + unfold ret, result_of, trace_of in *. simpl in *. injection Hr as <-.
      exists []. by rewrite app_nil_r.
  - unfold ret, result_of, trace_of in *. simpl in *. injection Hr as <-.
    exists []. by rewrite app_nil_r.
Qed.

(** X1.  When [get_port_mappings] returns, it has posted one request more
    than it returns mappings, and the mapping at position [i] of its result
    carries [i] under ["Index"], whatever the device answered. *)
Theorem get_port_mappings_indexed
    (fuel : nat) (d : Dev) (ms : list (gmap string pyval)) :
  result_of (get_port_mappings post fuel d) = Returned ms →
  length (trace_of (get_port_mappings post fuel d)) = S (length ms)
  ∧ ∀ (i : nat) m, ms !! i = Some m → m !! "Index" = Some (PInt (Z.of_nat i)).
Proof.
  intros Hr. unfold get_port_mappings in *.
  destruct (get_port_mappings_from_index fuel 0 [] d ms Hr)
    as (new & -> & Hl & Hi). done.
Qed.

(** X6.  A listed mapping is matched by the rules of one key only: two
    rules that both match it have the same external port and protocol. *)
Theorem matches_one_key (c1 c2 : rule) (m : gmap string pyval) :
  matches c1 m = true → matches c2 m = true →
  external c1 = external c2 ∧ proto c1 = proto c2.
Proof.
  unfold matches.
  intros [H1%bool_decide_eq_true H2%bool_decide_eq_true]%andb_true_iff
         [H3%bool_decide_eq_true H4%bool_decide_eq_true]%andb_true_iff.
  rewrite H1 in H3. rewrite H2 in H4.
  injection H3 as H3. injection H4 as H4.
  split; [by apply str_inj|by apply proto_str_inj].
Qed.

End Parsing.

(** ** The order of the detection *)

Section DetectionOrder.

Variable env : probe_env.

(** The cases of one pass of the loop of [check_nodes]. *)
Ltac one_node ip Hs :=
  simpl; unfold qualifies;
  destruct (status env ip) as [|? [?|]] eqn:Hs; simpl;
  repeat match goal with
         | |- context [?a =? ?b] => destruct (Z.eqb_spec a b); simpl
         | |- context [existsb is_carp_master ?l] =>
             destruct (existsb is_carp_master l) eqn:?; simpl
         end.

(** X7.  The detection returns the first node, in the order of
    [OPNSENSE_NODES], whose status query reports the master role or whose
    status query raises while the node answers the ping; it returns [None]
    exactly when no node does. *)
Theorem detection_first_match (nodes : list (string * node)) :
  (check_opnsense_master nodes env).1
  = snd <$> List.find (λ n, qualifies env n.1) nodes.
Proof.
  unfold check_opnsense_master.
  induction nodes as [|[ip cfg] rest IH]; [done|].
  one_node ip Hs; try done; try congruence.
Qed.

Lemma omap_queried_cons (ev : probe_event) (log : list probe_event) :
  queried (ev :: log)
  = match ev with Queried ip => ip :: queried log | _ => queried log end.
Proof. by destruct ev. Qed.

(** X8.  The detection asks the nodes for their status in the order of
    [OPNSENSE_NODES], each at most once and none skipped; it asks all of them
    when it returns [None], and stops at the node that it returns.  It pings
    only nodes that it has asked, at most once each. *)
Theorem detection_queries_in_order (nodes : list (string * node)) :
  let r := check_opnsense_master nodes env in
  queried r.2 `prefix_of` map fst nodes
  ∧ (r.1 = None → queried r.2 = map fst nodes)
  ∧ (∀ c, r.1 = Some c →
          ∃ ip, last (queried r.2) = Some ip ∧ (ip, c) ∈ nodes
                ∧ qualifies env ip = true)
  ∧ pinged r.2 `sublist_of` queried r.2.
Proof.
  unfold check_opnsense_master.
  induction nodes as [|[ip cfg] rest IH]; cbv zeta in *.
  { simpl. repeat split; try done. }
  destruct IH as (IHp & IHn & IHs & IHg).
  assert (∀ c, (check_nodes env rest).1 = Some c →
               ∃ ip0, last (ip :: queried (check_nodes env rest).2) = Some ip0
                      ∧ (ip0, c) ∈ (ip, cfg) :: rest
                      ∧ qualifies env ip0 = true) as Hrest.
  { intros c Hc. destruct (IHs c Hc) as (ip0 & Hl & Hin & Hq).
    exists ip0. repeat split; [|by apply list_elem_of_further|done].
    destruct (queried (check_nodes env rest).2); [done|].
    by rewrite last_cons_cons. }
  one_node ip Hs; subst; unfold queried, pinged in *; simpl;
    repeat split;
    try (by apply prefix_cons);
    try (by apply prefix_cons, prefix_nil);
    try (intros Hn; f_equal; by apply IHn);
    try done;
    try (by apply sublist_skip);
    try (by apply sublist_cons);
    try (by apply sublist_nil_l);
    try (intros c [= <-]; exists ip; repeat split;
         [apply list_elem_of_here|unfold qualifies; rewrite Hs; simpl;
          repeat match goal with
                 | H : existsb _ _ = true |- _ => rewrite H
                 | H : ping env ip = 0 |- _ => rewrite H
                 end; done]).
Qed.

End DetectionOrder.

(** ** More on the reconciliation and the loop, for every device *)

Section Passes.

Context {Dev : Type}.
Variable post : Dev → soap_request → Dev * http_result.
Variable FORWARDING_PORTS : list rule.
Variable OPNSENSE_NODES : list (string * node).
Implicit Types d : Dev.

Local Abbreviation detect env := (check_opnsense_master OPNSENSE_NODES env).1.
Local Abbreviation reconcile := (update_for_master post FORWARDING_PORTS).
Local Abbreviation step := (tick post FORWARDING_PORTS OPNSENSE_NODES).
Local Abbreviation loop := (main_loop post FORWARDING_PORTS OPNSENSE_NODES).

(** X9.  A reconciliation that returns [True] has posted the add of a
    configured rule whose external port belongs to the master, and that add
    was answered with status 200. *)
Theorem success_means_an_add (fuel : nat) (master : node) d :
  result_of (reconcile fuel master d) = Returned true →
  ∃ cfg h,
    cfg ∈ FORWARDING_PORTS ∧ external cfg ∈ ports master
    ∧ (add_request master cfg, h) ∈ trace_of (reconcile fuel master d)
    ∧ succeeded h = true.
Proof.
  intros Hr.
  destruct (update_for_master_cases post FORWARDING_PORTS fuel master d)
    as [(current & td & ta & _ & Ht & _ & Ha & _ & Hr')
       |[(current & td & ta & _ & _ & _ & _ & _ & _ & Hr')
        |(_ & [[_ Hr']|[_ Hr']])]]; cbv zeta in *;
    rewrite Hr' in Hr; try done.
  injection Hr as Hex. apply existsb_exists in Hex as ([q h] & Hin & Hok).
  assert (In q (add_requests FORWARDING_PORTS master)) as Hq.
  { rewrite <- Ha. apply in_map_iff. by exists (q, h). }
  apply add_requests_inv in Hq as (cfg & Hc & Hp & ->).
  exists cfg, h. repeat split; try done.
  - by apply list_elem_of_In.
  - rewrite Ht. apply elem_of_app. right. apply elem_of_app. right.
    by apply list_elem_of_In.
Qed.

(** X10.  A node none of whose ports is the external port of a configured
    rule is never recorded as the master, whatever is detected. *)
Theorem unassigned_node_never_recorded
    (master : node) (inputs : list (probe_env * nat)) d (c' : option node) :
  (∀ cfg, cfg ∈ FORWARDING_PORTS → external cfg ∉ ports master) →
  result_of (loop inputs None d) = Returned c' →
  c' ≠ Some master.
Proof.
  intros Hnone Hr.
  apply (main_loop_never_records post FORWARDING_PORTS OPNSENSE_NODES
           inputs None master d c'); [|done|done].
  intros fuel d' Htrue.
  destruct (success_means_an_add fuel master d' Htrue) as (cfg & h & Hc & Hp & _).
  by apply (Hnone cfg).
Qed.

Lemma delete_requests_nil :
  delete_requests FORWARDING_PORTS [] = [].
Proof.
  unfold delete_requests. induction FORWARDING_PORTS as [|cfg l IH]; [done|].
  simpl. exact IH.
Qed.

(** X11.  When the very first request of the listing fails, the
    reconciliation posts no remove at all: after the one listing request it
    goes on to the adds, so that mappings left on the device stay there. *)
Theorem failed_listing_skips_removes (fuel : nat) (master : node) d :
  (0 < fuel)%nat →
  ends_listing (post d (GetGenericPortMappingEntry 0)).2 = true →
  let x := reconcile fuel master d in
  ∃ ta,
    trace_of x
    = (GetGenericPortMappingEntry 0, (post d (GetGenericPortMappingEntry 0)).2)
      :: ta
    ∧ Forall (λ e, is_add e = true) ta
    ∧ ((map fst ta = add_requests FORWARDING_PORTS master
        ∧ result_of x = Returned (existsb ev_ok ta))
       ∨ (map fst ta `prefix_of` add_requests FORWARDING_PORTS master
          ∧ result_of x = Raised)).
Proof.
  intros Hf He x.
  assert (get_port_mappings post fuel d
          = ((post d (GetGenericPortMappingEntry 0)).1,
             [(GetGenericPortMappingEntry 0,
               (post d (GetGenericPortMappingEntry 0)).2)],
             Returned [])) as Hg.
  { unfold get_port_mappings.
    rewrite (get_port_mappings_from_listing post [] d 0%nat []
               (post d (GetGenericPortMappingEntry 0)).1
               (post d (GetGenericPortMappingEntry 0)).2 fuel);
      [done| |done|done].
    simpl. by destruct (post d (GetGenericPortMappingEntry 0)). }
  assert (∀ tr : list event,
            map fst tr `prefix_of` add_requests FORWARDING_PORTS master →
            Forall (λ e, is_add e = true) tr) as Hadds.
  { intros tr Hp.
    apply (prefix_requests_only _ _ (add_requests FORWARDING_PORTS master) Hp).
    intros q h. apply add_requests_adds. }
  subst x.
  destruct (update_for_master_cases post FORWARDING_PORTS fuel master d)
    as [(current & td & ta & Hg' & Ht & Hd & Ha & _ & Hr)
       |[(current & td & ta & Hg' & Ht & Hd & Ha & _ & _ & Hr)
        |(_ & [[Hg' _]|[Hg' _]])]]; cbv zeta in *;
    rewrite Hg in *; unfold result_of in Hg'; simpl in Hg'; try done.
  - injection Hg' as <-. rewrite delete_requests_nil in Hd.
    apply fmap_nil_inv in Hd as ->. exists ta.
    unfold trace_of at 2 in Ht. simpl in Ht.
    repeat split; try done.
    + apply Hadds. by rewrite Ha.
    + left. done.
  - injection Hg' as <-. rewrite delete_requests_nil in Hd.
    destruct Hd as [k Hk]. symmetry in Hk. apply app_eq_nil in Hk as [Hk _].
    apply fmap_nil_inv in Hk as ->. exists ta.
    unfold trace_of at 2 in Ht. simpl in Ht.
    repeat split; try done.
    + by apply Hadds.
    + right. done.
Qed.

Lemma tick_never_raises env fuel current d :
  result_of (step env fuel current d) ≠ Raised.
Proof.
  destruct (detect env) as [master|] eqn:Hd.
  - destruct (decide (Some master = current)) as [Heq|Hn].
    + rewrite tick_idle; [done|]. right. by rewrite Hd.
    + destruct (tick_reconcile post FORWARDING_PORTS OPNSENSE_NODES
                  env fuel current master d Hd Hn) as (_ & _ & Hx).
      cbv zeta in Hx. rewrite Hx.
      by destruct (result_of (reconcile fuel master d)) as [[|]| |].
  - rewrite tick_idle; [done|]. left. by rewrite Hd.
Qed.

(** X12.  No exception of a pass leaves the loop: however the device and
    the nodes answer, the loop does not end by raising. *)
Theorem main_loop_contains_exceptions
    (inputs : list (probe_env * nat)) (current : option node) d :
  result_of (loop inputs current d) ≠ Raised.
Proof.
  revert current d. induction inputs as [|[env fuel] rest IH];
    intros current d; [done|]. simpl.
  destruct (bind_cases (step env fuel current) (loop rest) d)
    as [(c1 & _ & _ & _ & Hb)|[(Ht & _)|(_ & _ & _ & Hb)]].
  - rewrite Hb. apply IH.
  - by destruct (tick_never_raises env fuel current d).
  - by rewrite Hb.
Qed.

(** X13.  The recorded master is always one of the values of
    [OPNSENSE_NODES]. *)
Theorem recorded_master_is_configured
    (inputs : list (probe_env * nat)) d (c : node) :
  result_of (loop inputs None d) = Returned (Some c) →
  ∃ ip, (ip, c) ∈ OPNSENSE_NODES.
Proof.
  assert (∀ current d' c',
            (∀ c0, current = Some c0 → ∃ ip, (ip, c0) ∈ OPNSENSE_NODES) →
            result_of (loop inputs current d') = Returned c' →
            ∀ c0, c' = Some c0 → ∃ ip, (ip, c0) ∈ OPNSENSE_NODES) as Hinv.
  { induction inputs as [|[env fuel] rest IH]; intros current d' c' Hcur Hr.
    - simpl in Hr. unfold ret, result_of in Hr. simpl in Hr.
      injection Hr as <-. done.
    - simpl in Hr.
      destruct (bind_cases (step env fuel current) (loop rest) d')
        as [(c1 & Ht & _ & _ & Hb)|[(_ & _ & _ & Hb)|(_ & _ & _ & Hb)]];
        rewrite Hb in Hr; [|done..].
      apply (IH c1 (state_of (step env fuel current d')) c'); [|done].
      destruct (tick_result post FORWARDING_PORTS OPNSENSE_NODES
                  env fuel current d' c1 Ht)
        as [->|(m & Hd & _ & -> & _)]; [done|].
      intros c0 [= <-].
      destruct (check_nodes_result env OPNSENSE_NODES m Hd) as (ip & Hin & _).
      by exists ip. }
  intros Hr. by apply (Hinv None d (Some c)).
Qed.

(** X14.  A reconciliation that returned [False] or raised is tried again:
    the pass leaves the recorded master as it was, and the next pass that
    detects the same node runs the reconciliation anew from the state in
    which the failed one left the device, and records the node if it now
    returns [True]. *)
Theorem failed_reconciliation_is_retried
    env1 env2 (fuel1 fuel2 : nat) (current : option node) (master : node) d :
  detect env1 = Some master →
  detect env2 = Some master →
  Some master ≠ current →
  result_of (reconcile fuel1 master d) = Returned false
  ∨ result_of (reconcile fuel1 master d) = Raised →
  let x1 := step env1 fuel1 current d in
  let x2 := step env2 fuel2 current (state_of x1) in
  let again := reconcile fuel2 master (state_of (reconcile fuel1 master d)) in
  result_of x1 = Returned current
  ∧ trace_of x2 = trace_of again
  ∧ state_of x2 = state_of again
  ∧ (result_of again = Returned true → result_of x2 = Returned (Some master)).
Proof.
  intros Hd1 Hd2 Hne Hfail. cbv zeta.
  destruct (tick_reconcile post FORWARDING_PORTS OPNSENSE_NODES
              env1 fuel1 current master d Hd1 Hne) as (Hs1 & _ & Hr1).
  cbv zeta in Hs1, Hr1. rewrite Hs1.
  destruct (tick_reconcile post FORWARDING_PORTS OPNSENSE_NODES
              env2 fuel2 current master
              (state_of (reconcile fuel1 master d)) Hd2 Hne)
    as (Hs2 & Ht2 & Hr2).
  cbv zeta in Hs2, Ht2, Hr2. repeat split; try done.
  - rewrite Hr1. by destruct Hfail as [->| ->].
  - intros Hok. by rewrite Hr2, Hok.
Qed.

End Passes.

(** ** More on the reconciliation against the router *)

Section RouterPasses.

Import Fritz.

Implicit Types (d : state) (t : list entry) (e : entry).

Lemma router_listing_keeps_state (fuel : nat) :
  ∀ (idx : nat) (ms : list (gmap string pyval)) d,
    state_of (get_port_mappings_from post fuel idx ms d) = d.
Proof.
  induction fuel as [|fuel IH]; intros idx ms d; [done|].
  simpl get_port_mappings_from. rewrite bind_soap.
  destruct d as [t fs]. simpl.
  destruct (t !! idx) as [e|]; simpl; [|done].
  specialize (IH (S idx) (ms ++ [parse_mapping (render e) idx]) (State t fs)).
  destruct (get_port_mappings_from post fuel (S idx) _ (State t fs))
    as [[d2 t2] r2]. done.
Qed.

(** The table after any run follows the removes and adds of the run. *)
Lemma router_run_any (rules : list rule) (fuel : nat) (master : node) d :
  ∃ tr,
    table (state_of (update_for_master post rules fuel master d))
    = replay tr (table d)
    ∧ ∀ ev, In ev tr → of_the_rules rules master ev.1.
Proof.
  pose proof (router_listing_keeps_state fuel 0 [] d) as Hst.
  fold (get_port_mappings post fuel d) in Hst.
  assert (state_of (update_for_master post rules fuel master d)
          = state_of ((current <- get_port_mappings post fuel ;;
                       _ <- issue post (delete_requests rules current) ;;
                       bs <- issue post (add_requests rules master) ;;
                       ret (existsb id bs)) d)) as ->
    by (by rewrite update_for_master_issue).
  unfold bind at 1.
  destruct (get_port_mappings post fuel d) as [[d1 tg] [current| |]];
    unfold state_of in Hst; simpl in Hst; subst d1;
    [|by exists []..].
  destruct (issue_router (delete_requests rules current) d)
    as (d2 & td & Hd & Hdm & Hdt).
  destruct (issue_router (add_requests rules master) d2)
    as (d3 & ta & Ha & Ham & Hat).
  unfold bind, ret. rewrite Hd, Ha. unfold state_of. simpl.
  exists (td ++ ta). rewrite replay_app, Hat, Hdt. split; [done|].
  intros [q h] [Hin|Hin]%in_app_or; simpl.
  - left. assert (In q (delete_requests rules current)) as Hq
      by (rewrite <- Hdm; apply in_map_iff; by exists (q, h)).
    apply delete_requests_inv in Hq as (cfg & m & Hc & _ & _ & ->).
    by exists cfg.
  - right. assert (In q (add_requests rules master)) as Hq
      by (rewrite <- Ham; apply in_map_iff; by exists (q, h)).
    apply add_requests_inv in Hq as (cfg & Hc & Hp & ->). by exists cfg.
Qed.

Lemma managed_spec (rules : list rule) e :
  managed rules e = true
  ↔ ∃ cfg, In cfg rules ∧ has_key (external cfg) (proto cfg) e = true.
Proof. unfold managed. by rewrite existsb_exists. Qed.

Lemma of_the_rules_names_managed (rules : list rule) (master : node)
    (q : soap_request) e :
  of_the_rules rules master q → names_key q e = true → managed rules e = true.
Proof.
  intros [(cfg & Hc & ->)|(cfg & Hc & _ & ->)] Hk; apply managed_spec;
    by exists cfg.
Qed.

Lemma apply_unmanaged (rules : list rule) (master : node)
    (q : soap_request) t :
  of_the_rules rules master q →
  List.filter (λ e, negb (managed rules e)) (apply q t)
  = List.filter (λ e, negb (managed rules e)) t.
Proof.
  intros Hq.
  assert (List.filter (λ e, negb (managed rules e))
            (List.filter (λ e, negb (names_key q e)) t)
          = List.filter (λ e, negb (managed rules e)) t) as Hw.
  { rewrite filter_filter. apply List.filter_ext. intros e.
    destruct (names_key q e) eqn:Hk; [|done].
    by rewrite (of_the_rules_names_managed rules master q e Hq Hk). }
  destruct Hq as [(cfg & Hc & ->)|(cfg & Hc & Hp & ->)]; simpl in *.
  - exact Hw.
  - unfold add_request. simpl. unfold without.
    rewrite List.filter_app. unfold add_request in Hw. simpl in Hw.
    rewrite Hw. simpl.
    assert (managed rules
              (Entry (external cfg) (proto cfg) (internal cfg) (wan_ip master)
                 (description cfg +:+ " (" +:+ hostname master +:+ ")"))
            = true) as ->.
    { apply managed_spec. exists cfg. split; [done|]. by apply has_key_spec. }
    simpl. by rewrite app_nil_r.
Qed.

(** X15.  A reconciliation never touches what it does not manage: whatever
    the fuel, the faults and the outcome of the run, the entries of the table
    under keys of no configured rule are the same before and after, in the
    same order. *)
Theorem unmanaged_entries_untouched
    (rules : list rule) (fuel : nat) (master : node) d :
  List.filter (λ e, negb (managed rules e))
    (table (state_of (update_for_master post rules fuel master d)))
  = List.filter (λ e, negb (managed rules e)) (table d).
Proof.
  destruct (router_run_any rules fuel master d) as (tr & -> & Htr).
  generalize (table d). induction tr as [|ev tr IH]; intros t; [done|].
  unfold replay in *. simpl.
  rewrite IH by (intros; apply Htr; by right).
  destruct (ev_ok ev); [|done].
  apply (apply_unmanaged rules master). apply Htr. by left.
Qed.

Lemma replay_elem (rules : list rule) (master : node) (tr : list event) :
  (∀ ev, In ev tr → of_the_rules rules master ev.1) →
  ∀ t e, In e (replay tr t) →
         In e t
         ∨ ∃ cfg, In cfg rules ∧ external cfg ∈ ports master
                  ∧ e = entry_for master cfg.
Proof.
  induction tr as [|ev tr IH]; intros Htr t e Hin; [by left|].
  unfold replay in *. simpl in Hin.
  destruct (IH (λ ev' H, Htr ev' (or_intror H)) _ e Hin) as [Ht|Hnew];
    [|by right].
  destruct (ev_ok ev); [|by left].
  destruct (Htr ev (or_introl eq_refl)) as [(cfg & Hc & Hq)|(cfg & Hc & Hp & Hq)];
    rewrite Hq in Ht; simpl in Ht.
  - left. unfold without in Ht. by apply List.filter_In in Ht as [? _].
  - unfold add_request in Ht. simpl in Ht.
    apply in_app_or in Ht as [Ht|[<-|[]]].
    + left. unfold without in Ht. by apply List.filter_In in Ht as [? _].
    + right. by exists cfg.
Qed.

(** X16.  Whatever the fuel, the faults and the outcome of a run, every
    entry of the table after it was there before, or is the mapping of a
    configured rule whose external port belongs to the new master, with the
    WAN address of that master as its client. *)
Theorem new_entries_point_at_master
    (rules : list rule) (fuel : nat) (master : node) d e :
  In e (table (state_of (update_for_master post rules fuel master d))) →
  In e (table d)
  ∨ ∃ cfg, In cfg rules ∧ external cfg ∈ ports master
           ∧ e = entry_for master cfg ∧ e_client e = wan_ip master.
Proof.
  destruct (router_run_any rules fuel master d) as (tr & -> & Htr).
  intros Hin.
  destruct (replay_elem rules master tr Htr _ e Hin)
    as [?|(cfg & Hc & Hp & ->)]; [by left|right].
  by exists cfg.
Qed.

(** After a run in which every remove and add succeeded the table is what
    the script does not manage, followed by the mappings added. *)
Lemma settled_unmanaged (rules : list rule) (master : node) t :
  settled rules master t
  = List.filter (λ e, negb (managed rules e)) t
    ++ carry_out (add_requests rules master) [].
Proof.
  unfold settled. f_equal. rewrite filter_filter.
  apply List.filter_ext_in. intros e He.
  destruct (managed rules e) eqn:Hm; simpl.
  - apply managed_spec in Hm as (cfg & Hc & Hk).
    by rewrite (configured_key_deleted rules t cfg e Hc He Hk).
  - assert (named_by (delete_requests rules
                        (listed_mappings 0 (map render t))) e = false) as ->.
    { apply not_true_is_false.
      intros (cfg & Hc & Hk)%deleted_key_configured.
      assert (managed rules e = true) as Hm'
        by (apply managed_spec; by exists cfg).
      by rewrite Hm in Hm'. }
    assert (named_by (add_requests rules master) e = false) as ->; [|done].
    apply not_true_is_false. unfold named_by.
    intros (q & Hq & Hk)%existsb_exists.
    apply add_requests_inv in Hq as (cfg & Hc & _ & ->).
    assert (managed rules e = true) as Hm'
      by (apply managed_spec; by exists cfg).
    by rewrite Hm in Hm'.
Qed.

Lemma added_entries_managed (rules : list rule) (master : node) e :
  In e (carry_out (add_requests rules master) []) → managed rules e = true.
Proof.
  intros He. destruct (carry_out_elem _ _ _ He) as [[]|Hq].
  apply add_requests_inv in Hq as (cfg & Hc & _ & Heq).
  apply managed_spec. exists cfg. split; [done|].
  unfold add_request in Heq. injection Heq as <- <- _ _ _.
  by apply has_key_spec.
Qed.

Lemma added_entries_distinct_keys (rules : list rule) (master : node) :
  NoDup (map rule_key rules) →
  carry_out (add_requests rules master) []
  = map (entry_for master) (List.filter (assigned master) rules).
Proof.
  induction rules as [|cfg rules IH]; intros Hnd; [done|].
  apply NoDup_cons in Hnd as [Hfresh Hnd]. specialize (IH Hnd).
  assert (add_requests (cfg :: rules) master
          = (if assigned master cfg then [add_request master cfg] else [])
            ++ add_requests rules master) as -> by done.
  cbn [List.filter]. destruct (assigned master cfg); [|exact IH].
  assert (carry_out ([add_request master cfg] ++ add_requests rules master) []
          = carry_out (add_requests rules master) [entry_for master cfg])
    as -> by done.
  rewrite (carry_out_adds _ _ (adds_only rules master)), IH.
  assert (named_by (add_requests rules master) (entry_for master cfg) = false)
    as Hn.
  { apply not_true_is_false. unfold named_by.
    intros (q & Hq & Hk)%existsb_exists.
    apply add_requests_inv in Hq as (cfg' & Hc' & _ & ->).
    simpl in Hk. apply has_key_spec in Hk as [Hk1 Hk2]. simpl in Hk1, Hk2.
    apply Hfresh. apply list_elem_of_fmap. exists cfg'.
    split; [|by apply list_elem_of_In].
    unfold rule_key. by rewrite Hk1, Hk2. }
  cbn [List.filter]. by rewrite Hn.
Qed.

(** X17.  With configured rules of pairwise distinct keys, a reconciliation
    in which every remove and add succeeded leaves exactly this table: the
    entries that the script does not manage, as they were, followed by one
    mapping for each configured rule whose port belongs to the new master,
    in the order of [FORWARDING_PORTS]. *)
Theorem successful_run_table
    (rules : list rule) (master : node) d (fuel : nat) :
  NoDup (map rule_key rules) →
  (length (table d) < fuel)%nat →
  Forall (λ ev, is_get ev = false → ev_ok ev = true)
    (trace_of (update_for_master post rules fuel master d)) →
  table (state_of (update_for_master post rules fuel master d))
  = List.filter (λ e, negb (managed rules e)) (table d)
    ++ map (entry_for master) (List.filter (assigned master) rules).
Proof.
  intros Hnd Hf Hall.
  destruct (router_run_ok rules fuel master d Hf Hall) as [_ Ht].
  by rewrite Ht, settled_unmanaged, added_entries_distinct_keys.
Qed.

Lemma settled_after_settled (rules : list rule) (m1 m2 : node) t :
  settled rules m1 (settled rules m2 t) = settled rules m1 t.
Proof.
  rewrite (settled_unmanaged rules m1 (settled rules m2 t)).
  rewrite (settled_unmanaged rules m2 t), (settled_unmanaged rules m1 t).
  f_equal. rewrite List.filter_app.
  rewrite (filter_none _ (carry_out _ [])).
  - rewrite app_nil_r, filter_filter. apply List.filter_ext.
    intros e. by destruct (managed rules e).
  - intros e He. by rewrite (added_entries_managed rules m2 e He).
Qed.

(** X18.  The table after a successful reconciliation does not depend on
    the master that was served before: reconciling for one master and then
    for another leaves the same table as reconciling for the second one
    straight away (every remove and add succeeding in the three runs). *)
Theorem reconciliation_forgets_history
    (rules : list rule) (m1 m2 : node) d (fa fb fc : nat) :
  let xa := update_for_master post rules fa m2 d in
  let xb := update_for_master post rules fb m1 (state_of xa) in
  let xc := update_for_master post rules fc m1 d in
  (length (table d) < fa)%nat →
  (length (table (state_of xa)) < fb)%nat →
  (length (table d) < fc)%nat →
  Forall (λ ev, is_get ev = false → ev_ok ev = true) (trace_of xa) →
  Forall (λ ev, is_get ev = false → ev_ok ev = true) (trace_of xb) →
  Forall (λ ev, is_get ev = false → ev_ok ev = true) (trace_of xc) →
  table (state_of xb) = table (state_of xc).
Proof.
  intros xa xb xc Hfa Hfb Hfc Ha Hb Hc.
  destruct (router_run_ok rules fa m2 d Hfa Ha) as [_ Hta].
  destruct (router_run_ok rules fb m1 (state_of xa) Hfb Hb) as [_ Htb].
  destruct (router_run_ok rules fc m1 d Hfc Hc) as [_ Htc].
  fold xa in Hta. fold xb in Htb. fold xc in Htc.
  by rewrite Htb, Htc, Hta, settled_after_settled.
Qed.

End RouterPasses.

(** ** The further properties on the scenarios *)

Lemma last_segment_strips_namespace_witness :
  PyStr.has_char "}"%char "NewProtocol" = false
  ∧ PyStr.last_segment
      ("{urn:dslforum-org:service:WANIPConnection:1"
       +:+ String "}" "NewProtocol") = "NewProtocol"
  ∧ PyStr.last_segment "NewProtocol" = "NewProtocol"
  ∧ ∀ s, PyStr.has_char "}"%char (PyStr.last_segment s) = false.
Proof.
  split; [reflexivity|].
  exact (last_segment_strips_namespace
           "{urn:dslforum-org:service:WANIPConnection:1" "NewProtocol" eq_refl).
Defined.

Lemma parse_mapping_entries_witness :
  parse_mapping [("Body", "x"); ("NewProtocol", "TCP"); ("NewRemoteHost", "")] 7
    !! "Protocol" = Some (PStr "TCP")
  ∧ (("Protocol" = "Index" ∧ PStr "TCP" = PInt (Z.of_nat 7))
     ∨ ∃ tag text,
         (tag, text) ∈ [("Body", "x"); ("NewProtocol", "TCP"); ("NewRemoteHost", "")]
         ∧ PyStr.startswith "New" (PyStr.last_segment tag) = true
         ∧ text ≠ ""
         ∧ "Protocol" = PyStr.replace_New (PyStr.last_segment tag)
         ∧ PStr "TCP" = PStr text).
Proof.
  assert (parse_mapping
            [("Body", "x"); ("NewProtocol", "TCP"); ("NewRemoteHost", "")] 7
            !! "Protocol" = Some (PStr "TCP")) as H by reflexivity.
  split; [exact H|].
  exact (parse_mapping_entries _ 7%nat "Protocol" (PStr "TCP") H).
Defined.


Lemma parse_mapping_reads_element_witness :
  PyStr.has_char "}"%char "ExternalPort" = false
  ∧ PyStr.replace_New "ExternalPort" = "ExternalPort"
  ∧ "ExternalPort" ≠ "Index"
  ∧ "443" ≠ ""
  ∧ parse_mapping
      ([("NewRemoteHost", "")]
       ++ [("{urn:x" +:+ String "}" ("New" +:+ "ExternalPort"), "443")]) 0
      !! "ExternalPort" = Some (PStr "443").
Proof.
  assert ("ExternalPort" ≠ "Index") as Hi by discriminate.
  assert ("443" ≠ "") as Ht by discriminate.
  split; [reflexivity|]. split; [reflexivity|].
  split; [exact Hi|]. split; [exact Ht|].
  exact (parse_mapping_reads_element [("NewRemoteHost", "")] "{urn:x"
           "ExternalPort" "443" 0%nat eq_refl eq_refl Hi Ht).
Defined.

Lemma get_port_mappings_indexed_witness :
  let d := Fritz.State Scenario.routerA [] in
  let ms := listed_mappings 0 (map Fritz.render Scenario.routerA) in
  result_of (get_port_mappings Fritz.post 3 d) = Returned ms
  ∧ length (trace_of (get_port_mappings Fritz.post 3 d)) = S (length ms)
  ∧ ∀ (i : nat) m, ms !! i = Some m → m !! "Index" = Some (PInt (Z.of_nat i)).
Proof.
  cbv zeta.
  assert (result_of (get_port_mappings Fritz.post 3
                       (Fritz.State Scenario.routerA []))
          = Returned (listed_mappings 0 (map Fritz.render Scenario.routerA)))
    as H by (by rewrite router_listing by (simpl; lia)).
  split; [exact H|].
  exact (get_port_mappings_indexed Fritz.post 3%nat _ _ H).
Defined.

Lemma matches_one_key_witness :
  let m := parse_mapping
             (Fritz.render
                (Fritz.Entry 443 TCP 443 "192.168.178.3" "HTTPS-Server")) 0 in
  let c1 := Rule 443 443 TCP "HTTPS-Server" in
  let c2 := Rule 443 8443 TCP "HTTPS-Alt" in
  matches c1 m = true ∧ matches c2 m = true
  ∧ external c1 = external c2 ∧ proto c1 = proto c2.
Proof.
  cbv zeta.
  assert (matches (Rule 443 443 TCP "HTTPS-Server")
            (parse_mapping
               (Fritz.render
                  (Fritz.Entry 443 TCP 443 "192.168.178.3" "HTTPS-Server")) 0)
          = true) as H1 by (vm_compute; reflexivity).
  assert (matches (Rule 443 8443 TCP "HTTPS-Alt")
            (parse_mapping
               (Fritz.render
                  (Fritz.Entry 443 TCP 443 "192.168.178.3" "HTTPS-Server")) 0)
          = true) as H2 by (vm_compute; reflexivity).
  split; [exact H1|]. split; [exact H2|].
  exact (matches_one_key _ _ _ H1 H2).
Defined.

Lemma success_means_an_add_witness :
  let x := update_for_master Fritz.post Scenario.rules 3 Scenario.nodeB
             (Fritz.State Scenario.routerA []) in
  result_of x = Returned true
  ∧ ∃ cfg h,
      cfg ∈ Scenario.rules ∧ external cfg ∈ ports Scenario.nodeB
      ∧ (add_request Scenario.nodeB cfg, h) ∈ trace_of x
      ∧ succeeded h = true.
Proof.
  cbv zeta.
  assert (result_of (update_for_master Fritz.post Scenario.rules 3 Scenario.nodeB
                       (Fritz.State Scenario.routerA [])) = Returned true)
    as H by (vm_compute; reflexivity).
  split; [exact H|].
  exact (success_means_an_add Fritz.post Scenario.rules 3%nat Scenario.nodeB
           _ H).
Defined.

Lemma unassigned_node_never_recorded_witness :
  let nodes := [("10.1.1.3", Scenario.nodeA); ("10.1.1.4", Scenario.outsider)] in
  let inputs := [(Scenario.envB_master, 3%nat); (Scenario.envB_master, 3%nat)] in
  (∀ cfg, cfg ∈ Scenario.rules → external cfg ∉ ports Scenario.outsider)
  ∧ result_of (main_loop Fritz.post Scenario.rules nodes inputs None
                 (Fritz.State Scenario.routerA [])) = Returned None
  ∧ None ≠ Some Scenario.outsider.
Proof.
  cbv zeta.
  assert (∀ cfg, cfg ∈ Scenario.rules → external cfg ∉ ports Scenario.outsider)
    as Hnone.
  { apply Forall_forall. compute_done. }
  assert (result_of
            (main_loop Fritz.post Scenario.rules
               [("10.1.1.3", Scenario.nodeA); ("10.1.1.4", Scenario.outsider)]
               [(Scenario.envB_master, 3%nat); (Scenario.envB_master, 3%nat)]
               None (Fritz.State Scenario.routerA [])) = Returned None)
    as H by (vm_compute; reflexivity).
  split; [exact Hnone|]. split; [exact H|].
  exact (unassigned_node_never_recorded Fritz.post Scenario.rules _
           Scenario.outsider _ _ None Hnone H).
Defined.

Lemma failed_listing_skips_removes_witness :
  let d := Fritz.State [] [] in
  let x := update_for_master Fritz.post Scenario.rules 1 Scenario.nodeA d in
  (0 < 1)%nat
  ∧ ends_listing (Fritz.post d (GetGenericPortMappingEntry 0)).2 = true
  ∧ ∃ ta,
      trace_of x
      = (GetGenericPortMappingEntry 0,
         (Fritz.post d (GetGenericPortMappingEntry 0)).2) :: ta
      ∧ Forall (λ e, is_add e = true) ta
      ∧ ((map fst ta = add_requests Scenario.rules Scenario.nodeA
          ∧ result_of x = Returned (existsb ev_ok ta))
         ∨ (map fst ta `prefix_of` add_requests Scenario.rules Scenario.nodeA
            ∧ result_of x = Raised)).
Proof.
  cbv zeta.
  assert (0 < 1)%nat as Hf by lia.
  split; [exact Hf|]. split; [reflexivity|].
  exact (failed_listing_skips_removes Fritz.post Scenario.rules 1%nat
           Scenario.nodeA (Fritz.State [] []) Hf eq_refl).
Defined.

Lemma recorded_master_is_configured_witness :
  result_of (main_loop Fritz.post Scenario.rules Scenario.nodes
               [(Scenario.envB_master, 3%nat)] None
               (Fritz.State Scenario.routerA []))
  = Returned (Some Scenario.nodeB)
  ∧ ∃ ip, (ip, Scenario.nodeB) ∈ Scenario.nodes.
Proof.
  assert (result_of (main_loop Fritz.post Scenario.rules Scenario.nodes
                       [(Scenario.envB_master, 3%nat)] None
                       (Fritz.State Scenario.routerA []))
          = Returned (Some Scenario.nodeB)) as H by (vm_compute; reflexivity).
  split; [exact H|].
  exact (recorded_master_is_configured Fritz.post Scenario.rules Scenario.nodes
           _ _ Scenario.nodeB H).
Defined.

Lemma failed_reconciliation_is_retried_witness :
  let d := Fritz.State
             [Fritz.Entry 443 TCP 443 "192.168.178.3" "HTTPS-Server (PC-192-178-3)"]
             [false; true] in
  let reconcile := update_for_master Fritz.post Scenario.rules in
  let step := tick Fritz.post Scenario.rules Scenario.nodes in
  let x1 := step Scenario.envB_master 3%nat (Some Scenario.nodeA) d in
  let x2 := step Scenario.envB_master 3%nat (Some Scenario.nodeA) (state_of x1) in
  let again := reconcile 3%nat Scenario.nodeB
                 (state_of (reconcile 3%nat Scenario.nodeB d)) in
  (check_opnsense_master Scenario.nodes Scenario.envB_master).1
  = Some Scenario.nodeB
  ∧ Some Scenario.nodeB ≠ Some Scenario.nodeA
  ∧ (result_of (reconcile 3%nat Scenario.nodeB d) = Returned false
     ∨ result_of (reconcile 3%nat Scenario.nodeB d) = Raised)
  ∧ result_of again = Returned true
  ∧ result_of x1 = Returned (Some Scenario.nodeA)
  ∧ trace_of x2 = trace_of again
  ∧ state_of x2 = state_of again
  ∧ (result_of again = Returned true →
     result_of x2 = Returned (Some Scenario.nodeB)).
Proof.
  cbv zeta.
  assert (Some Scenario.nodeB ≠ Some Scenario.nodeA) as Hne by discriminate.
  assert (result_of (update_for_master Fritz.post Scenario.rules 3 Scenario.nodeB
            (Fritz.State
               [Fritz.Entry 443 TCP 443 "192.168.178.3"
                  "HTTPS-Server (PC-192-178-3)"] [false; true]))
          = Returned false
          ∨ result_of (update_for_master Fritz.post Scenario.rules 3
              Scenario.nodeB
              (Fritz.State
                 [Fritz.Entry 443 TCP 443 "192.168.178.3"
                    "HTTPS-Server (PC-192-178-3)"] [false; true]))
            = Raised) as Hfail by (left; vm_compute; reflexivity).
  split; [reflexivity|]. split; [exact Hne|]. split; [exact Hfail|].
  split; [vm_compute; reflexivity|].
  exact (failed_reconciliation_is_retried Fritz.post Scenario.rules
           Scenario.nodes Scenario.envB_master Scenario.envB_master
           3%nat 3%nat (Some Scenario.nodeA) Scenario.nodeB _
           eq_refl eq_refl Hne Hfail).
Defined.

Lemma new_entries_point_at_master_witness :
  let x := update_for_master Fritz.post Scenario.rules 3 Scenario.nodeB
             (Fritz.State Scenario.routerA []) in
  let e := Fritz.Entry 8443 TCP 8443 "192.168.178.4" "HTTPS-Alt (PC-192-178-4)" in
  In e (Fritz.table (state_of x))
  ∧ (In e Scenario.routerA
     ∨ ∃ cfg, In cfg Scenario.rules ∧ external cfg ∈ ports Scenario.nodeB
              ∧ e = entry_for Scenario.nodeB cfg
              ∧ Fritz.e_client e = wan_ip Scenario.nodeB).
Proof.
  cbv zeta.
  assert (In (Fritz.Entry 8443 TCP 8443 "192.168.178.4" "HTTPS-Alt (PC-192-178-4)")
            (Fritz.table
               (state_of (update_for_master Fritz.post Scenario.rules 3
                            Scenario.nodeB (Fritz.State Scenario.routerA [])))))
    as H by (vm_compute; auto).
  split; [exact H|].
  exact (new_entries_point_at_master Scenario.rules 3%nat Scenario.nodeB
           (Fritz.State Scenario.routerA []) _ H).
Defined.

Lemma successful_run_table_witness :
  let d := Fritz.State Scenario.routerA [] in
  let x := update_for_master Fritz.post Scenario.rules 3 Scenario.nodeB d in
  NoDup (map rule_key Scenario.rules)
  ∧ (length (Fritz.table d) < 3)%nat
  ∧ Forall (λ ev, is_get ev = false → ev_ok ev = true) (trace_of x)
  ∧ Fritz.table (state_of x)
    = List.filter (λ e, negb (managed Scenario.rules e)) (Fritz.table d)
      ++ map (entry_for Scenario.nodeB)
           (List.filter (assigned Scenario.nodeB) Scenario.rules).
Proof.
  cbv zeta.
  assert (NoDup (map rule_key Scenario.rules)) as Hnd by compute_done.
  assert (length (Fritz.table (Fritz.State Scenario.routerA [])) < 3)%nat as Hf
    by (simpl; lia).
  assert (Forall (λ ev, is_get ev = false → ev_ok ev = true)
            (trace_of (update_for_master Fritz.post Scenario.rules 3
                         Scenario.nodeB (Fritz.State Scenario.routerA []))))
    as Hall by compute_done.
  split; [exact Hnd|]. split; [exact Hf|]. split; [exact Hall|].
  exact (successful_run_table Scenario.rules Scenario.nodeB
           (Fritz.State Scenario.routerA []) 3%nat Hnd Hf Hall).
Defined.

Lemma reconciliation_forgets_history_witness :
  let d := Fritz.State Scenario.routerA [] in
  let xa := update_for_master Fritz.post Scenario.rules 3 Scenario.nodeA d in
  let xb := update_for_master Fritz.post Scenario.rules 3 Scenario.nodeB
              (state_of xa) in
  let xc := update_for_master Fritz.post Scenario.rules 3 Scenario.nodeB d in
  (length (Fritz.table d) < 3)%nat
  ∧ (length (Fritz.table (state_of xa)) < 3)%nat
  ∧ Forall (λ ev, is_get ev = false → ev_ok ev = true) (trace_of xa)
  ∧ Forall (λ ev, is_get ev = false → ev_ok ev = true) (trace_of xb)
  ∧ Forall (λ ev, is_get ev = false → ev_ok ev = true) (trace_of xc)
  ∧ Fritz.table (state_of xb) = Fritz.table (state_of xc).
Proof.
  cbv zeta.
  assert (length (Fritz.table (Fritz.State Scenario.routerA [])) < 3)%nat as Hfa
    by (simpl; lia).
  assert (length (Fritz.table
            (state_of (update_for_master Fritz.post Scenario.rules 3
                         Scenario.nodeA (Fritz.State Scenario.routerA [])))) < 3)%nat
    as Hfb by (vm_compute; lia).
  assert (Forall (λ ev, is_get ev = false → ev_ok ev = true)
            (trace_of (update_for_master Fritz.post Scenario.rules 3
                         Scenario.nodeA (Fritz.State Scenario.routerA []))))
    as Ha by compute_done.
  assert (Forall (λ ev, is_get ev = false → ev_ok ev = true)
            (trace_of (update_for_master Fritz.post Scenario.rules 3 Scenario.nodeB
               (state_of (update_for_master Fritz.post Scenario.rules 3
                            Scenario.nodeA (Fritz.State Scenario.routerA []))))))
    as Hb by compute_done.
  assert (Forall (λ ev, is_get ev = false → ev_ok ev = true)
            (trace_of (update_for_master Fritz.post Scenario.rules 3
                         Scenario.nodeB (Fritz.State Scenario.routerA []))))
    as Hc by compute_done.
  split; [exact Hfa|]. split; [exact Hfb|]. split; [exact Ha|].
  split; [exact Hb|]. split; [exact Hc|].
  exact (reconciliation_forgets_history Scenario.rules Scenario.nodeB
           Scenario.nodeA (Fritz.State Scenario.routerA []) 3%nat 3%nat 3%nat
           Hfa Hfb Hfa Ha Hb Hc).
Defined.

(** ** The reconciliation when the listing can fail *)

Section BusyRouter.

Import Fritz.

Implicit Types (d : Busy.state) (t : list entry).

Lemma busy_post_replay d (q : soap_request) :
  Busy.table (Busy.post d q).1
  = if succeeded (Busy.post d q).2 then apply q (Busy.table d)
    else Busy.table d.
Proof.
  destruct d as [r rs]. unfold Busy.table.
  destruct q as [idx|port pr|port pr ip cl ds]; simpl.
  - destruct rs as [|[] rs]; simpl; try done;
      by destruct (Fritz.table r !! idx).
  - apply (post_replay r (DeletePortMapping port pr)).
  - apply (post_replay r (AddPortMapping port pr ip cl ds)).
Qed.

Lemma busy_post_replies d (q : soap_request) : (Busy.post d q).2 ≠ NoReply.
Proof.
  destruct d as [r rs].
  destruct q as [idx|port pr|port pr ip cl ds]; simpl.
  - destruct rs as [|[] rs]; simpl; try done;
      by destruct (Fritz.table r !! idx).
  - apply (post_replies r (DeletePortMapping port pr)).
  - apply (post_replies r (AddPortMapping port pr ip cl ds)).
Qed.

Lemma issue_busy (reqs : list soap_request) d :
  ∃ d' tr,
    issue Busy.post reqs d = (d', tr, Returned (map ev_ok tr))
    ∧ map fst tr = reqs
    ∧ Busy.table d' = replay tr (Busy.table d).
Proof.
  revert d. induction reqs as [|q qs IH]; intros d.
  { exists d, []. done. }
  simpl issue. rewrite bind_soap.
  pose proof (busy_post_replay d q) as Hp.
  pose proof (busy_post_replies d q) as Hr.
  destruct (Busy.post d q) as [d1 [|r]]; [done|]. simpl in *.
  destruct (IH d1) as (d2 & t2 & Hi & Hm & Ht).
  exists d2, ((q, Reply r) :: t2). unfold bind, ret. rewrite Hi. simpl.
  rewrite app_nil_r, Hm, Ht. unfold replay, ev_ok. simpl. rewrite Hp.
  repeat split. by destruct (status_code r =? 200).
Qed.

Lemma busy_listing_keeps_table (fuel : nat) :
  ∀ (idx : nat) (ms : list (gmap string pyval)) d,
    Busy.table (state_of (get_port_mappings_from Busy.post fuel idx ms d))
    = Busy.table d.
Proof.
  induction fuel as [|fuel IH]; intros idx ms d; [done|].
  simpl get_port_mappings_from. rewrite bind_soap.
  pose proof (busy_post_replay d (GetGenericPortMappingEntry idx)) as Hp.
  destruct (Busy.post d (GetGenericPortMappingEntry idx)) as [d1 [|r]];
    simpl in *.
  - unfold state_of. simpl. by destruct (succeeded NoReply).
  - assert (Busy.table d1 = Busy.table d) as Ht
      by (by destruct (status_code r =? 200)).
    destruct (status_code r =? 200); [|done].
    destruct (elements r) as [elems|]; [|done].
    specialize (IH (S idx) (ms ++ [parse_mapping elems idx]) d1).
    destruct (get_port_mappings_from Busy.post fuel (S idx) _ d1)
      as [[d2 t2] r2].
    unfold state_of in *. simpl in *. by rewrite IH.
Qed.

(** A run whose listing returned [current] and whose removes and adds all
    succeeded returns, and the table has followed its requests. *)
Lemma busy_run_ok (rules : list rule) (fuel : nat) (master : node) d
    (current : list (gmap string pyval)) :
  result_of (get_port_mappings Busy.post fuel d) = Returned current →
  let x := update_for_master Busy.post rules fuel master d in
  Forall (λ ev, is_get ev = false → ev_ok ev = true) (trace_of x) →
  (∃ b, result_of x = Returned b)
  ∧ Busy.table (state_of x)
    = carry_out (add_requests rules master)
        (carry_out (delete_requests rules current) (Busy.table d)).
Proof.
  intros Hg x.
  pose proof (busy_listing_keeps_table fuel 0 [] d) as Hst.
  fold (get_port_mappings Busy.post fuel d) in Hst.
  destruct (get_port_mappings Busy.post fuel d) as [[d1 tg] rg] eqn:Hget.
  unfold result_of in Hg. simpl in Hg. subst rg.
  unfold state_of in Hst. simpl in Hst.
  destruct (issue_busy (delete_requests rules current) d1)
    as (d2 & td & Hd & Hdm & Hdt).
  destruct (issue_busy (add_requests rules master) d2)
    as (d3 & ta & Ha & Ham & Hat).
  assert (x = (d3, tg ++ td ++ ta, Returned (existsb id (map ev_ok ta)))) as ->.
  { subst x. rewrite update_for_master_issue. unfold bind, ret.
    rewrite Hget, Hd, Ha. by rewrite app_nil_r. }
  unfold trace_of, result_of, state_of. simpl. intros Hall.
  split; [by eexists|].
  apply Forall_app in Hall as [_ Hall].
  apply Forall_app in Hall as [Hdok Haok].
  apply (all_ok_block td _ Hdm) in Hdok;
    [|by intros q (p & pr & ->)%deletes_only].
  apply (all_ok_block ta _ Ham) in Haok;
    [|by intros q (p & pr & ip & cl & ds & ->)%adds_only].
  rewrite Hat, Hdt, Hst, (replay_all_ok td _ Hdok), (replay_all_ok ta _ Haok).
  by rewrite Hdm, Ham.
Qed.

(** C1, as the script has it.  Against a router whose listing can fail, a
    reconciliation whose listing returned every mapping of the table and
    whose removes and adds were all answered with status 200 returns, and
    leaves a table in which every configured rule whose external port is
    among the ports of the new master has exactly one mapping under its
    (external port, protocol), with the WAN address of the master as its
    client, and every other configured rule has no mapping under its key. *)
Theorem reconciliation_after_full_listing
    (rules : list rule) (master : node) d (fuel : nat) :
  let x := update_for_master Busy.post rules fuel master d in
  result_of (get_port_mappings Busy.post fuel d)
  = Returned (listed_mappings 0 (map render (Busy.table d))) →
  Forall (λ ev, is_get ev = false → ev_ok ev = true) (trace_of x) →
  (∃ b, result_of x = Returned b)
  ∧ (∀ cfg, cfg ∈ rules → external cfg ∈ ports master →
            ∃ e, lookup_key (external cfg) (proto cfg)
                   (Busy.table (state_of x)) = [e]
                 ∧ e_client e = wan_ip master)
  ∧ (∀ cfg, cfg ∈ rules → external cfg ∉ ports master →
            lookup_key (external cfg) (proto cfg)
              (Busy.table (state_of x)) = []).
Proof.
  intros x Hg Hall.
  destruct (busy_run_ok rules fuel master d _ Hg Hall) as [Hr Ht].
  fold x in Hr, Ht.
  assert (Busy.table (state_of x) = settled rules master (Busy.table d)) as ->.
  { rewrite Ht. unfold settled.
    rewrite (carry_out_deletes _ _ (deletes_only _ _)).
    by rewrite (carry_out_adds _ _ (adds_only _ _)). }
  repeat split; [done|..].
  - intros cfg Hc%list_elem_of_In Hp. by apply settled_assigned.
  - intros cfg Hc%list_elem_of_In Hp. by apply settled_unassigned.
Qed.

(** A router that refuses no listing request lists its whole table. *)
Lemma busy_answers_listing (r : Fritz.state) (rest : list entry) :
  ∀ idx : nat,
    drop idx (Fritz.table r) = rest →
    answers_listing Busy.post (Busy.State r []) idx (map render rest)
      (Busy.State r []) (fault "713").
Proof.
  induction rest as [|e rest IH]; intros idx Hdrop; simpl.
  - assert (Fritz.table r !! idx = None) as ->; [|done].
    apply lookup_ge_None. apply drop_nil_inv in Hdrop. lia.
  - assert (Fritz.table r !! idx = Some e) as He.
    { rewrite <- (Nat.add_0_r idx), <- lookup_drop, Hdrop. done. }
    rewrite He. exists (Busy.State r []). split; [done|].
    apply IH. rewrite (drop_S _ _ _ He) in Hdrop. by injection Hdrop.
Qed.

Lemma busy_listing (r : Fritz.state) (fuel : nat) :
  (length (Fritz.table r) < fuel)%nat →
  result_of (get_port_mappings Busy.post fuel (Busy.State r []))
  = Returned (listed_mappings 0 (map render (Fritz.table r))).
Proof.
  intros Hf. unfold get_port_mappings.
  rewrite (get_port_mappings_from_listing Busy.post (map render (Fritz.table r))
             (Busy.State r []) 0%nat [] (Busy.State r []) (fault "713") fuel);
    [done| |done|by rewrite length_map].
  by apply busy_answers_listing.
Qed.

End BusyRouter.

(** C1, as stated, fails: the router refuses the first listing request, so
    the run lists nothing and posts no remove; its one add is answered with
    status 200 and it returns [True] -- but 443/TCP, a configured rule that
    does not belong to node B, is still forwarded to node A. *)
Lemma stale_mapping_survives_failed_listing :
  let x := update_for_master Busy.post Scenario.rules 3 Scenario.nodeB
             Scenario.unlisted_router in
  result_of (get_port_mappings Busy.post 3 Scenario.unlisted_router)
  = Returned []
  ∧ Forall (λ ev, is_get ev = false → ev_ok ev = true) (trace_of x)
  ∧ map (λ ev, (ev.1, ev_ok ev)) (trace_of x)
    = [ (GetGenericPortMappingEntry 0, false);
        (AddPortMapping 8443 TCP 8443 "192.168.178.4" "HTTPS-Alt (PC-192-178-4)",
         true) ]
  ∧ result_of x = Returned true
  ∧ (Rule 443 443 TCP "HTTPS-Server" ∈ Scenario.rules)
  ∧ (443 ∉ ports Scenario.nodeB)
  ∧ Fritz.lookup_key 443 TCP (Busy.table (state_of x))
    = [Fritz.Entry 443 TCP 443 "192.168.178.3" "HTTPS-Server (PC-192-178-3)"].
Proof.
  cbv zeta. split; [vm_compute; reflexivity|].
  split; [compute_done|]. split; [vm_compute; reflexivity|].
  split; [vm_compute; reflexivity|].
  split; [apply list_elem_of_In; simpl; auto|].
  split; [intros H%list_elem_of_In; simpl in H; by destruct H|].
  vm_compute. reflexivity.
Qed.

Lemma reconciliation_after_full_listing_witness :
  let d := Busy.State (Fritz.State Scenario.routerA []) [] in
  let x := update_for_master Busy.post Scenario.rules 3 Scenario.nodeB d in
  result_of (get_port_mappings Busy.post 3 d)
  = Returned (listed_mappings 0 (map Fritz.render (Busy.table d)))
  ∧ Forall (λ ev, is_get ev = false → ev_ok ev = true) (trace_of x)
  ∧ (∃ b, result_of x = Returned b)
  ∧ (∀ cfg, cfg ∈ Scenario.rules → external cfg ∈ ports Scenario.nodeB →
        ∃ e, Fritz.lookup_key (external cfg) (proto cfg)
               (Busy.table (state_of x)) = [e]
             ∧ Fritz.e_client e = wan_ip Scenario.nodeB)
  ∧ (∀ cfg, cfg ∈ Scenario.rules → external cfg ∉ ports Scenario.nodeB →
        Fritz.lookup_key (external cfg) (proto cfg)
          (Busy.table (state_of x)) = []).
Proof.
  cbv zeta.
  assert (result_of (get_port_mappings Busy.post 3
                       (Busy.State (Fritz.State Scenario.routerA []) []))
          = Returned (listed_mappings 0
                        (map Fritz.render
                           (Busy.table
                              (Busy.State (Fritz.State Scenario.routerA []) []))))) as Hg.
  { apply (busy_listing (Fritz.State Scenario.routerA []) 3). simpl. lia. }
  assert (Forall (λ ev, is_get ev = false → ev_ok ev = true)
            (trace_of (update_for_master Busy.post Scenario.rules 3
                         Scenario.nodeB
                         (Busy.State (Fritz.State Scenario.routerA []) []))))
    as Hall by compute_done.
  split; [exact Hg|]. split; [exact Hall|].
  exact (reconciliation_after_full_listing Scenario.rules Scenario.nodeB
           (Busy.State (Fritz.State Scenario.routerA []) []) 3%nat Hg Hall).
Defined.

(** ** The table after a reconciliation some of whose adds failed *)

Section BusyPasses.

Import Fritz.

Implicit Types (d : Busy.state) (t : list entry).







End BusyPasses.


